(** * jque: in-memory Mongo-flavoured queries over lists of records

    A shallow embedding of [src/jque/__init__.py]: the operator table
    [_OPERATORS], the record matcher [_check_record], the parallel evaluator
    [_parallel_query] and the [jque] class with its [query] method.
    [_check_record_parallel] is left out: nothing in the module calls it, and
    what a call returns depends on whether [deco] is installed.

    Python values are embedded as the JSON universe the module is fed with
    (None, booleans, integers, strings, lists and string-keyed dicts);
    floating-point numbers, tuples and sets are left out.  A dict is the list
    of its items in insertion order, keys pairwise distinct.  Exceptions are an
    explicit error monad: a computation either returns ([Ok]) or raises
    ([Raise]). *)

From Stdlib Require Import ZArith String Ascii List Bool Lia.
From stdpp Require Import base option list strings gmap.

Local Open Scope string_scope.
Local Open Scope list_scope.
Local Open Scope Z_scope.

(** ** Python values *)

#[warnings="-register-all"]
Inductive value : Type :=
| VNone
| VBool (b : bool)
| VInt (n : Z)
| VStr (s : string)
| VList (items : list value)
| VDict (items : list (string * value)).

(** A record of the queried collection: a dict from field name to value. *)
Abbreviation record := (list (string * value)).

(** ** Exceptions and the error monad *)

Inductive exn : Type :=
| ValueError (msg : string)
| KeyError (key : value)
| IndexError
| TypeError
| AttributeError
| OtherError (name : string).

Inductive result (A : Type) : Type :=
| Ok (a : A)
| Raise (e : exn).
Arguments Ok {A} a.
Arguments Raise {A} e.

(** Sequencing: an exception raised by [m] propagates past [f]. *)
Definition bind {A B : Type} (m : result A) (f : A -> result B) : result B :=
  match m with
  | Ok a => f a
  | Raise e => Raise e
  end.

Notation "'let!' x ':=' m 'in' k" := (bind m (fun x => k))
  (at level 10, x name, m at level 100, k at level 200).

(** ** Dict subscription, [d[key]] and [key in d] *)

Fixpoint dict_get {A : Type} (d : list (string * A)) (key : string) : option A :=
  match d with
  | [] => None
  | (k, v) :: rest => if String.eqb k key then Some v else dict_get rest key
  end.

(** [record[key]]: a missing key raises [KeyError(key)]. *)
Definition getitem (r : record) (key : string) : result value :=
  match dict_get r key with
  | Some v => Ok v
  | None => Raise (KeyError (VStr key))
  end.

(** ** Comparison of values *)

(** [bool] is a subclass of [int]: [True == 1] and [False == 0]. *)
Definition as_int (x : value) : option Z :=
  match x with
  | VBool b => Some (Z.b2z b)
  | VInt n => Some n
  | _ => None
  end.

(** [x == y]. *)
Fixpoint py_eq (x y : value) : bool :=
  match x, y with
  | VNone, VNone => true
  | VBool b, VBool c => Bool.eqb b c
  | VBool b, VInt n => Z.eqb (Z.b2z b) n
  | VInt n, VBool c => Z.eqb n (Z.b2z c)
  | VInt n, VInt m => Z.eqb n m
  | VStr s, VStr t => String.eqb s t
  | VList xs, VList ys =>
      (fix elementwise (xs ys : list value) : bool :=
         match xs, ys with
         | [], [] => true
         | x' :: xs', y' :: ys' => py_eq x' y' && elementwise xs' ys'
         | _, _ => false
         end) xs ys
  | VDict d, VDict e =>
      Nat.eqb (length d) (length e) &&
      (fix each_item (d : list (string * value)) : bool :=
         match d with
         | [] => true
         | (k, v) :: d' =>
             match dict_get e k with
             | Some w => py_eq v w
             | None => false
             end && each_item d'
         end) d
  | _, _ => false
  end.

(** [x != y]. *)
Definition py_ne (x y : value) : bool := negb (py_eq x y).

(** The four ordering comparisons. *)
Inductive ordering : Type := Lt' | Le' | Gt' | Ge'.

Definition Z_order (o : ordering) (a b : Z) : bool :=
  match o with
  | Lt' => Z.ltb a b
  | Le' => Z.leb a b
  | Gt' => Z.ltb b a
  | Ge' => Z.leb b a
  end.

Definition str_order (o : ordering) (s t : string) : bool :=
  match o with
  | Lt' => String.ltb s t
  | Le' => String.leb s t
  | Gt' => String.ltb t s
  | Ge' => String.leb t s
  end.

(** [x < y], [x <= y], [x > y], [x >= y]: numbers with numbers, strings with
    strings, lists with lists (decided at the first pair of unequal elements,
    else by length); anything else is a [TypeError]. *)
Fixpoint py_order (o : ordering) (x y : value) : result bool :=
  match x, y with
  | VList xs, VList ys =>
      (fix lexicographic (xs ys : list value) : result bool :=
         match xs, ys with
         | x' :: xs', y' :: ys' =>
             if py_eq x' y' then lexicographic xs' ys' else py_order o x' y'
         | _, _ => Ok (Z_order o (Z.of_nat (length xs)) (Z.of_nat (length ys)))
         end) xs ys
  | VStr s, VStr t => Ok (str_order o s t)
  | _, _ =>
      match as_int x, as_int y with
      | Some a, Some b => Ok (Z_order o a b)
      | _, _ => Raise TypeError
      end
  end.

(** [t in s] for strings: [t] occurs in [s] as a substring. *)
Fixpoint str_contains (t s : string) : bool :=
  String.prefix t s ||
  match s with
  | EmptyString => false
  | String _ s' => str_contains t s'
  end.

(** [x in y]: membership in a list, key membership in a dict (an unhashable
    [x] is a [TypeError]), substring test in a string; a [y] that is not a
    container is a [TypeError]. *)
Definition py_in (x y : value) : result bool :=
  match y with
  | VList items => Ok (existsb (fun e => py_eq e x) items)
  | VDict items =>
      match x with
      | VList _ | VDict _ => Raise TypeError
      | VStr k => Ok (bool_decide (is_Some (dict_get items k)))
      | _ => Ok false
      end
  | VStr s =>
      match x with
      | VStr t => Ok (str_contains t s)
      | _ => Raise TypeError
      end
  | _ => Raise TypeError
  end.

(** Truth value of an object, as [not] and [if] test it. *)
Definition truthy (x : value) : bool :=
  match x with
  | VNone => false
  | VBool b => b
  | VInt n => negb (Z.eqb n 0)
  | VStr s => negb (String.eqb s "")
  | VList items => negb (Nat.eqb (length items) 0)
  | VDict items => negb (Nat.eqb (length items) 0)
  end.

(** ** The operator table *)

(** An entry of the table: called on the record's value and the comparand. *)
Abbreviation operator := (value -> value -> result value).

Definition returns_bool (r : result bool) : result value :=
  let! b := r in Ok (VBool b).

Definition _OPERATORS : gmap string operator :=
  list_to_map
    [ ("$eq", fun x y => Ok (VBool (py_eq x y)));
      ("$neq", fun x y => Ok (VBool (py_ne x y)));
      ("$lt", fun x y => returns_bool (py_order Lt' x y));
      ("$lte", fun x y => returns_bool (py_order Le' x y));
      ("$gt", fun x y => returns_bool (py_order Gt' x y));
      ("$gte", fun x y => returns_bool (py_order Ge' x y));
      ("$in", fun x y => returns_bool (py_in x y));
      ("$nin", fun x y => let! b := py_in x y in Ok (VBool (negb b))) ].

(** ** The record matcher *)

(** What a predicate maps a field name to: a plain value (a dict among them),
    a Python function (an instance of [types.FunctionType]: a [def] or a
    [lambda]) of one argument, or an object that can be called but is no
    Python function (a builtin, a [functools.partial], an instance of a class
    with [__call__]), here with what calling it would compute.  Such an
    object has the default equality: it equals no value of the universe. *)
Inductive qualifier : Type :=
| Obj (v : value)
| Function (f : value -> result value)
| Callable (f : value -> result value).

Abbreviation predicate := (list (string * qualifier)).

Definition unknown_operator (op : string) : exn :=
  ValueError ("'" ++ op ++ "' is not a valid operator.")%string.

Section matcher.
(** The table as it stands when the matcher runs: [_OPERATORS] is a
    module-level dict that [jque.OPERATORS] exposes for extension. *)
Variable OPERATORS : gmap string operator.

(** The inner loop, [for op, val in qual.items()].  [Ok false] is the
    function's [return False]; [Ok true] falls through to the next field. *)
Fixpoint check_clause (rec : record) (key : string)
    (qual : list (string * value)) : result bool :=
  match qual with
  | [] => Ok true
  | (op, val) :: rest =>
      match OPERATORS !! op with
      | None => Raise (unknown_operator op)
      | Some f =>
          let! x := getitem rec key in
          let! verdict := f x val in
          if negb (truthy verdict) then Ok false
          else check_clause rec key rest
      end
  end.

(** One iteration of the outer loop: the dispatch on the qualifier's type.
    Only a dict and a Python function have a branch of their own; anything
    else, a callable object included, goes through [record[key] != qual],
    which holds of a callable object whatever the record's value. *)
Definition check_field (rec : record) (key : string) (qual : qualifier)
    : result bool :=
  match qual with
  | Obj (VDict clause) => check_clause rec key clause
  | Function f =>
      let! x := getitem rec key in
      let! verdict := f x in
      Ok (truthy verdict)
  | Obj v =>
      let! x := getitem rec key in
      Ok (negb (py_ne x v))
  | Callable _ =>
      let! x := getitem rec key in
      Ok false
  end.

Fixpoint _check_record (qr : predicate) (rec : record) : result bool :=
  match qr with
  | [] => Ok true
  | (key, qual) :: rest =>
      let! pass := check_field rec key qual in
      if pass then _check_record rest rec else Ok false
  end.

End matcher.

(** ** The [jque] class *)

(** What a [jque] object holds as [self.data]: a Python list of records, or a
    [pandas.DataFrame], given by its rows.  The frames meant are those whose
    rows come out of [iterrows] with the plain values as cells (a frame with
    columns of several types, such as the sample records, and not one of
    numbers only, whose cells are numpy scalars) and whose column labels are
    the records' field names; every row of a frame has every column. *)
Inductive pydata : Type :=
| PyList (items : list record)
| DataFrame (rows : list record).

Record jque : Type := {
  parallel : bool;
  _is_pandas : bool;
  data : pydata
}.

(** [jque(data, parallel)] for data that is already a list or a frame (a
    string is first parsed into a list; anything else is refused). *)
Definition __init__ (data : pydata) (parallel : bool) : jque :=
  {| parallel := parallel;
     _is_pandas := match data with DataFrame _ => true | PyList _ => false end;
     data := data |}.

(** What [for record in ...] is asked to iterate over. *)
Inductive iterable : Type :=
| Records (items : list record)
| ListType.

(** [[v for _, v in x.iterrows()]]: the rows of a frame, each read by field
    name like a record; a list has no such attribute. *)
Definition iterrows (x : pydata) : result (list record) :=
  match x with
  | DataFrame rows => Ok rows
  | PyList _ => Raise AttributeError
  end.

(** [self._iter_items], the lambda
    [lambda x: [v for _, v in x.iterrows()] if self._is_pandas else list]:
    the conditional expression is the lambda's body, so calling it on data
    that is no frame returns the builtin type [list] itself. *)
Definition _iter_items (self : jque) (x : pydata) : result iterable :=
  if _is_pandas self then
    let! rows := iterrows x in Ok (Records rows)
  else Ok ListType.

(** [limit and len(filtered_data) >= limit]: [None] and [0] are falsy. *)
Definition limit_reached (limit : option Z) (n : nat) : bool :=
  match limit with
  | None => false
  | Some k => negb (Z.eqb k 0) && Z.leb k (Z.of_nat n)
  end.

(** [items[:limit]]: a negative bound counts from the end. *)
Definition slice_to {A : Type} (limit : option Z) (items : list A) : list A :=
  match limit with
  | None => items
  | Some k =>
      if Z.leb 0 k then take (Z.to_nat k) items
      else take (Z.to_nat (Z.of_nat (length items) + k)) items
  end.

(** [len(data)] and [data[i]].  On a frame an integer key selects a column,
    and no column of a frame of records is labelled by an integer. *)
Definition data_len (d : pydata) : nat :=
  match d with
  | PyList items => length items
  | DataFrame rows => length rows
  end.

Definition data_getitem (d : pydata) (i : nat) : result record :=
  match d with
  | PyList items =>
      match items !! i with
      | Some r => Ok r
      | None => Raise IndexError
      end
  | DataFrame _ => Raise (KeyError (VInt (Z.of_nat i)))
  end.

(** [len(self)]. *)
Definition __len__ (self : jque) : nat := data_len (data self).

(** [self[key]] for an integer key (slices are left out).  A list counts a
    negative key from its end and refuses a key out of range; on a frame the
    key selects a column, as in [data_getitem]. *)
Definition __getitem__ (self : jque) (key : Z) : result record :=
  match data self with
  | PyList items =>
      let n := Z.of_nat (length items) in
      let i := if Z.ltb key 0 then key + n else key in
      if Z.leb 0 i && Z.ltb i n then data_getitem (PyList items) (Z.to_nat i)
      else Raise IndexError
  | DataFrame _ => Raise (KeyError (VInt key))
  end.

(** [[d for d, r in zip(self.data, results) if r]].  Iterating a frame yields
    its column labels; [_parallel_query] returns for a frame only when it has
    no rows, and then [results], and with it the comprehension, is empty. *)
Definition zip_filter (d : pydata) (results : list bool) : list record :=
  match d with
  | PyList items => (filter (fun dr => dr.2 = true) (zip items results)).*1
  | DataFrame _ => []
  end.

(** What [query] returns: a new [jque] object or the bare list. *)
Inductive query_result : Type :=
| Wrapped (j : jque)
| Bare (items : list record).

Definition rewrap (wrap : bool) (items : list record) : query_result :=
  if wrap then Wrapped (__init__ (PyList items) false) else Bare items.

Section query.
Variable OPERATORS : gmap string operator.

(** The loop of [_parallel_query] over [range(len(data))], threading the
    vector [results] it assigns into. *)
Fixpoint parallel_loop (qr : predicate) (d : pydata) (indices : list nat)
    (results : list bool) : result (list bool) :=
  match indices with
  | [] => Ok results
  | i :: rest =>
      let! r := data_getitem d i in
      let! b := _check_record OPERATORS qr r in
      parallel_loop qr d rest (<[i := b]> results)
  end.

Definition _parallel_query (qr : predicate) (d : pydata)
    : result (list bool) :=
  parallel_loop qr d (seq 0 (data_len d)) (replicate (data_len d) false).

(** The sequential loop of [query], threading [filtered_data]. *)
Fixpoint query_loop (qr : predicate) (limit : option Z)
    (items : list record) (filtered_data : list record)
    : result (list record) :=
  match items with
  | [] => Ok filtered_data
  | r :: rest =>
      let! include := _check_record OPERATORS qr r in
      if include then
        let filtered_data := filtered_data ++ [r] in
        if limit_reached limit (length filtered_data) then Ok filtered_data
        else query_loop qr limit rest filtered_data
      else query_loop qr limit rest filtered_data
  end.

(** [for record in it]: the type [list] is not iterable. *)
Definition for_each_record (qr : predicate) (limit : option Z)
    (it : iterable) : result (list record) :=
  match it with
  | Records items => query_loop qr limit items []
  | ListType => Raise TypeError
  end.

Definition query (self : jque) (qr : predicate) (wrap : bool)
    (limit : option Z) : result query_result :=
  if parallel self then
    let! results := _parallel_query qr (data self) in
    let filtered_results := slice_to limit (zip_filter (data self) results) in
    Ok (rewrap wrap filtered_results)
  else
    let! it := _iter_items self (data self) in
    let! filtered_data := for_each_record qr limit it in
    Ok (rewrap wrap filtered_data).

(** The matcher applied to each record in turn; the first exception wins. *)
Fixpoint check_each (qr : predicate) (items : list record)
    : result (list bool) :=
  match items with
  | [] => Ok []
  | r :: rest =>
      let! b := _check_record OPERATORS qr r in
      let! bs := check_each qr rest in
      Ok (b :: bs)
  end.

(** [self.query(P1).query(P2)]: the first query wraps its result, the second
    one runs on the wrapper. *)
Definition query_twice (self : jque) (P1 P2 : predicate)
    : result query_result :=
  let! first := query self P1 true None in
  match first with
  | Wrapped j => query j P2 true None
  | Bare _ => Raise AttributeError
  end.
End query.

(** ** Vocabulary of the statements *)

(** The records a [jque] object was built over, in order. *)
Definition data_records (d : pydata) : list record :=
  match d with
  | PyList items => items
  | DataFrame rows => rows
  end.

(** The records a result holds. *)
Definition result_records (q : query_result) : list record :=
  match q with
  | Wrapped j => data_records (data j)
  | Bare items => items
  end.

(** A predicate matches a record when the matcher, run with the table as the
    module defines it, returns [True]. *)
Definition matches (qr : predicate) (r : record) : Prop :=
  _check_record _OPERATORS qr r = Ok true.

(** The matcher's verdict as a boolean: [True] returned, as opposed to
    [False] returned or an exception raised. *)
Definition is_match (OPERATORS : gmap string operator) (qr : predicate)
    (r : record) : bool :=
  match _check_record OPERATORS qr r with
  | Ok true => true
  | _ => false
  end.

(** A list on none of whose records the matcher raises. *)
Definition never_raises (OPERATORS : gmap string operator) (qr : predicate)
    (items : list record) : Prop :=
  ∀ r, r ∈ items → ∃ b, _check_record OPERATORS qr r = Ok b.

(** Whether evaluating a qualifier starts by reading the record: a literal
    and a test function do; an operator clause does when its first operator
    is in the table.  An empty clause reads nothing, and an operator missing
    from the table is reported before the record is read. *)
Definition reads_record (OPERATORS : gmap string operator) (qual : qualifier)
    : bool :=
  match qual with
  | Obj (VDict []) => false
  | Obj (VDict ((op, _) :: _)) => bool_decide (is_Some (OPERATORS !! op))
  | _ => true
  end.

(** What the parallel mode keeps of a list: the records whose verdict is
    [True], once the matcher has returned on all of them. *)
Definition kept_records (OPERATORS : gmap string operator) (qr : predicate)
    (items : list record) : result (list record) :=
  let! v := check_each OPERATORS qr items in
  Ok (zip_filter (PyList items) v).

(** The kinds of values the comparisons tell apart. *)
Inductive kind : Type := KNone | KNumber | KString | KList | KDict.

Definition kind_of (x : value) : kind :=
  match x with
  | VNone => KNone
  | VBool _ | VInt _ => KNumber
  | VStr _ => KString
  | VList _ => KList
  | VDict _ => KDict
  end.

(** Whether two values are of one kind that has an order. *)
Definition same_ordered_kind (x y : value) : bool :=
  match kind_of x, kind_of y with
  | KNumber, KNumber | KString, KString | KList, KList => true
  | _, _ => false
  end.

(** The symbols of the four ordering operators, each with its comparison. *)
Definition ordering_symbols : list (string * ordering) :=
  [("$lt", Lt'); ("$lte", Le'); ("$gt", Gt'); ("$gte", Ge')].

(** Whether [x in y] is defined: [y] is a list, a dict and [x] hashable, or a
    string and [x] a string too. *)
Definition membership_defined (x y : value) : bool :=
  match y, x with
  | VList _, _ => true
  | VDict _, (VList _ | VDict _) => false
  | VDict _, _ => true
  | VStr _, VStr _ => true
  | _, _ => false
  end.

(** The operator symbols a predicate uses, clause by clause. *)
Definition qualifier_operators (qual : qualifier) : list string :=
  match qual with
  | Obj (VDict clause) => clause.*1
  | _ => []
  end.

Definition predicate_operators (qr : predicate) : list string :=
  concat (map (fun kq => qualifier_operators kq.2) qr).

(** ** Sample data: the three records of the class docstring *)

Definition arthur : record :=
  [("id", VStr "A"); ("age", VInt 42); ("planet", VStr "earth")].
Definition penny : record :=
  [("id", VStr "B"); ("age", VInt 19); ("planet", VStr "earth")].
Definition ford : record :=
  [("id", VStr "C"); ("age", VInt 240); ("planet", VStr "mars")].
Definition people : list record := [arthur; penny; ford].

Definition earthlings : predicate := [("planet", Obj (VStr "earth"))].
Definition aged_19 : predicate := [("age", Obj (VInt 19))].
Definition teenage_earthlings : predicate :=
  [("planet", Obj (VStr "earth"));
   ("age", Obj (VDict [("$lte", VInt 20); ("$gte", VInt 10)]))].
Definition mars_with_bogus_age : predicate :=
  [("planet", Obj (VStr "mars")); ("age", Obj (VDict [("$bogus", VInt 1)]))].
Definition earthling_bogus_age : predicate :=
  [("planet", Obj (VStr "earth"));
   ("age", Obj (VDict [("$gte", VInt 10); ("$bogus", VInt 1)]))].
Definition mars_with_moons : predicate :=
  [("planet", Obj (VStr "mars")); ("moons", Obj (VInt 2))].
Definition earth_with_moons : predicate :=
  [("planet", Obj (VStr "earth")); ("moons", Obj (VDict [("$gte", VInt 1)]))].

(** A test function: [lambda age: age >= 18]. *)
Definition is_adult (x : value) : result value :=
  let! b := py_order Ge' x (VInt 18) in Ok (VBool b).
(** The same test as a callable object, [functools.partial(operator.le, 18)]. *)
Definition adult_by_partial : predicate := [("age", Callable is_adult)].
Definition adult_earthlings : predicate :=
  [("planet", Obj (VStr "earth")); ("age", Function is_adult);
   ("id", Obj (VDict [("$neq", VStr "Z")]))].

(** A caller's operator: the record's value divides the comparand. *)
Definition divides (x y : value) : result value :=
  match x, y with
  | VInt a, VInt b => Ok (VBool (Z.eqb (b mod a) 0))
  | _, _ => Raise TypeError
  end.

(** * Properties *)

(** ** Sequencing and lookups *)

Lemma bind_Ok {A B : Type} (m : result A) (f : A -> result B) (b : B) :
  bind m f = Ok b ↔ ∃ a, m = Ok a ∧ f a = Ok b.
Proof.
  destruct m as [a|e]; simpl; split.
  - eauto.
  - intros (a' & [= <-] & H). exact H.
  - discriminate.
  - intros (a' & [=] & _).
Qed.

Lemma getitem_Ok (r : record) (key : string) (x : value) :
  getitem r key = Ok x ↔ dict_get r key = Some x.
Proof.
  unfold getitem. destruct (dict_get r key); split; congruence.
Qed.

Lemma existsb_py_eq (x : value) (l : list value) :
  existsb (fun e => py_eq e x) l = true ↔ ∃ e, e ∈ l ∧ py_eq e x = true.
Proof.
  rewrite existsb_exists. split; intros (e & He & Heq); exists e; split; auto.
  - by apply list_elem_of_In.
  - by apply list_elem_of_In.
Qed.

(** The table, entry by entry. *)

Lemma lookup_gte :
  _OPERATORS !! "$gte" = Some (fun x y => returns_bool (py_order Ge' x y)).
Proof. reflexivity. Qed.

Lemma lookup_lte :
  _OPERATORS !! "$lte" = Some (fun x y => returns_bool (py_order Le' x y)).
Proof. reflexivity. Qed.

Lemma lookup_in :
  _OPERATORS !! "$in" = Some (fun x y => returns_bool (py_in x y)).
Proof. reflexivity. Qed.

(** ** The matcher on single-field predicates *)

Lemma literal_int_match (r : record) (key : string) (n : Z) :
  matches [(key, Obj (VInt n))] r
  ↔ ∃ x, dict_get r key = Some x ∧ py_eq x (VInt n) = true.
Proof.
  unfold matches. simpl. unfold getitem, py_ne.
  destruct (dict_get r key) as [x|]; simpl.
  - destruct (py_eq x (VInt n)) eqn:E; simpl; split.
    + eauto.
    + done.
    + discriminate.
    + intros (y & [= <-] & H). congruence.
  - split; [discriminate | intros (y & [=] & _)].
Qed.

Lemma literal_str_match (r : record) (key s : string) :
  matches [(key, Obj (VStr s))] r ↔ dict_get r key = Some (VStr s).
Proof.
  unfold matches. simpl. unfold getitem, py_ne.
  destruct (dict_get r key) as [x|]; simpl; [|split; discriminate].
  destruct x; simpl; try (split; [discriminate | intros [=]]).
  destruct (String.eqb_spec s0 s) as [->|Hne]; simpl; split; try done.
  intros [= ->]. done.
Qed.

(** Both operators of a range clause on a number: the conjunction of the two
    comparisons. *)
Lemma range_clause_on_number (x : value) (a lo hi : Z) :
  as_int x = Some a →
  (let! verdict := returns_bool (py_order Ge' x (VInt lo)) in
   if negb (truthy verdict) then Ok false
   else let! verdict0 := returns_bool (py_order Le' x (VInt hi)) in
        if negb (truthy verdict0) then Ok false else Ok true)
  = Ok (Z.leb lo a && Z.leb a hi).
Proof.
  intros Ha. destruct x; simpl in Ha; try discriminate;
    injection Ha as <-; simpl;
    destruct (Z.leb lo _); simpl; try reflexivity;
    destruct (Z.leb _ hi); reflexivity.
Qed.

Lemma range_match (r : record) (key : string) (lo hi : Z) :
  matches [(key, Obj (VDict [("$gte", VInt lo); ("$lte", VInt hi)]))] r
  ↔ ∃ x a, dict_get r key = Some x ∧ as_int x = Some a ∧ lo <= a <= hi.
Proof.
  unfold matches. simpl. rewrite lookup_gte, lookup_lte. unfold getitem.
  destruct (dict_get r key) as [x|]; simpl;
    [|split; [discriminate | intros (y & a & [=] & _)]].
  destruct (as_int x) as [a|] eqn:Ha.
  - rewrite (range_clause_on_number x a lo hi Ha). simpl.
    destruct (Z.leb_spec lo a), (Z.leb_spec a hi); simpl; split;
      try discriminate; try (intros _; exists x, a; repeat split; auto; lia);
      try done;
      intros (y & b & [= <-] & Hb & Hlo & Hhi); rewrite Ha in Hb;
      injection Hb as <-; lia.
  - split.
    + destruct x; simpl in Ha; try discriminate; simpl; discriminate.
    + intros (y & b & [= <-] & Hb & _). congruence.
Qed.

Lemma membership_match (r : record) (key : string) (l : list value) :
  matches [(key, Obj (VDict [("$in", VList l)]))] r
  ↔ ∃ x, dict_get r key = Some x ∧ ∃ e, e ∈ l ∧ py_eq e x = true.
Proof.
  unfold matches. simpl. rewrite lookup_in. unfold getitem.
  destruct (dict_get r key) as [x|]; simpl;
    [|split; [discriminate | intros (y & [=] & _)]].
  destruct (existsb (fun e => py_eq e x) l) eqn:E; simpl; split.
  - intros _. exists x. split; [done|]. by apply existsb_py_eq.
  - done.
  - discriminate.
  - intros (y & [= <-] & H). apply existsb_py_eq in H. congruence.
Qed.

(** C1. The operator table implements the documented comparison semantics.
    A literal qualifier matches a record iff the record's value at the field
    equals the literal, so [{"age": 42}] matches iff the value at ["age"] is
    42.  The clause [{"$gte": lo, "$lte": hi}] matches iff the value at the
    field is a number between [lo] and [hi], both operators conjoined, so
    [{"age": {"$gte": 10, "$lte": 20}}] matches iff [10 <= age <= 20].  The
    clause [{"$in": l}] matches iff the value at the field is a member of
    [l], so [{"planet": {"$in": ["earth", "mars"]}}] matches iff the planet
    is one of the two.  A record without the field matches none of them. *)
Theorem operator_table_semantics (r : record) (key : string) :
  (∀ n, matches [(key, Obj (VInt n))] r
        ↔ ∃ x, dict_get r key = Some x ∧ py_eq x (VInt n) = true)
  ∧ (matches [("age", Obj (VInt 42))] r ↔ dict_get r "age" = Some (VInt 42))
  ∧ (∀ s, matches [(key, Obj (VStr s))] r ↔ dict_get r key = Some (VStr s))
  ∧ (∀ lo hi,
        matches [(key, Obj (VDict [("$gte", VInt lo); ("$lte", VInt hi)]))] r
        ↔ ∃ x a, dict_get r key = Some x ∧ as_int x = Some a ∧ lo <= a <= hi)
  ∧ (matches [("age", Obj (VDict [("$gte", VInt 10); ("$lte", VInt 20)]))] r
        ↔ ∃ x a, dict_get r "age" = Some x ∧ as_int x = Some a ∧ 10 <= a <= 20)
  ∧ (∀ l, matches [(key, Obj (VDict [("$in", VList l)]))] r
        ↔ ∃ x, dict_get r key = Some x ∧ ∃ e, e ∈ l ∧ py_eq e x = true)
  ∧ (matches
       [("planet", Obj (VDict [("$in", VList [VStr "earth"; VStr "mars"])]))] r
        ↔ dict_get r "planet" = Some (VStr "earth")
          ∨ dict_get r "planet" = Some (VStr "mars")).
Proof.
  repeat split.
  - by apply literal_int_match.
  - by apply literal_int_match.
  - intros (x & Hx & Heq)%literal_int_match. rewrite Hx. f_equal.
    destruct x; simpl in Heq; try discriminate.
    + destruct b; discriminate.
    + f_equal. by apply Z.eqb_eq.
  - intros H. apply literal_int_match. exists (VInt 42). by split.
  - by apply literal_str_match.
  - by apply literal_str_match.
  - by apply range_match.
  - by apply range_match.
  - by apply range_match.
  - by apply range_match.
  - by apply membership_match.
  - by apply membership_match.
  - intros (x & Hx & e & He & Heq)%membership_match. rewrite Hx.
    destruct x; apply elem_of_cons in He as [->|He]; simpl in Heq;
      try discriminate;
      try (apply elem_of_cons in He as [->|He]; simpl in Heq;
           try discriminate; try by apply elem_of_nil in He).
    + left. f_equal. f_equal. symmetry. by apply String.eqb_eq.
    + right. f_equal. f_equal. symmetry. by apply String.eqb_eq.
  - intros [H|H]; apply membership_match.
    + exists (VStr "earth"). split; [done|]. exists (VStr "earth").
      split; [set_solver | done].
    + exists (VStr "mars"). split; [done|]. exists (VStr "mars").
      split; [set_solver | done].
Qed.

(** ** The matcher over a predicate split in two *)

Section matcher_facts.
Variable OPERATORS : gmap string operator.

Lemma check_clause_app (r : record) (key : string)
    (before after : list (string * value)) :
  check_clause OPERATORS r key (before ++ after)
  = let! pass := check_clause OPERATORS r key before in
    if pass then check_clause OPERATORS r key after else Ok false.
Proof.
  induction before as [|[op val] before IH]; simpl; [done|].
  destruct (OPERATORS !! op) as [f|]; [|done].
  destruct (getitem r key) as [x|e]; simpl; [|done].
  destruct (f x val) as [verdict|e]; simpl; [|done].
  destruct (truthy verdict); simpl; [exact IH | done].
Qed.

Lemma _check_record_app (before after : predicate) (r : record) :
  _check_record OPERATORS (before ++ after) r
  = let! pass := _check_record OPERATORS before r in
    if pass then _check_record OPERATORS after r else Ok false.
Proof.
  induction before as [|[key qual] before IH]; simpl; [done|].
  destruct (check_field OPERATORS r key qual) as [[|]|e]; simpl; auto.
Qed.

(** The fields up to a given one pass: the loop reaches that field. *)
Lemma _check_record_reach (before : predicate) (key : string)
    (qual : qualifier) (after : predicate) (r : record) :
  _check_record OPERATORS before r = Ok true →
  _check_record OPERATORS (before ++ (key, qual) :: after) r
  = let! pass := check_field OPERATORS r key qual in
    if pass then _check_record OPERATORS after r else Ok false.
Proof.
  intros H. rewrite _check_record_app, H. reflexivity.
Qed.

(** A field that fails ends the evaluation with [False], whatever follows. *)
Lemma _check_record_short_circuit (before : predicate) (key : string)
    (qual : qualifier) (after : predicate) (r : record) :
  _check_record OPERATORS before r = Ok true →
  check_field OPERATORS r key qual = Ok false →
  _check_record OPERATORS (before ++ (key, qual) :: after) r = Ok false.
Proof.
  intros Hbefore Hfield. rewrite _check_record_reach by done.
  by rewrite Hfield.
Qed.

Lemma check_field_missing (r : record) (key : string) (qual : qualifier) :
  dict_get r key = None →
  reads_record OPERATORS qual = true →
  check_field OPERATORS r key qual = Raise (KeyError (VStr key)).
Proof.
  intros Hkey Hreads.
  assert (Hget : getitem r key = Raise (KeyError (VStr key)))
    by (unfold getitem; by rewrite Hkey).
  destruct qual as [v|f|f]; cbn [check_field];
    [|by rewrite Hget|by rewrite Hget].
  destruct v as [| | | | |clause]; try by rewrite Hget.
  destruct clause as [|[op val] clause]; [done|].
  cbn [reads_record] in Hreads. apply bool_decide_eq_true in Hreads as [f Hf].
  cbn [check_clause]. rewrite Hf. by rewrite Hget.
Qed.

Lemma is_match_Ok (qr : predicate) (r : record) (b : bool) :
  _check_record OPERATORS qr r = Ok b → is_match OPERATORS qr r = b.
Proof. unfold is_match. intros ->. by destruct b. Qed.

Lemma never_raises_cons (qr : predicate) (r : record) (items : list record) :
  never_raises OPERATORS qr (r :: items) →
  (∃ b, _check_record OPERATORS qr r = Ok b)
  ∧ never_raises OPERATORS qr items.
Proof.
  intros Hall. split.
  - apply Hall, elem_of_cons. by left.
  - intros r' Hr'. apply Hall, elem_of_cons. by right.
Qed.
End matcher_facts.

(** ** C10: the empty operator clause *)

(** C10. A field whose qualifier is the empty mapping is vacuously satisfied:
    the field passes on every record, whether or not the record has it, so
    [{"f": {}}] matches every record and raises no lookup error; inside any
    predicate the verdict (or the error) is that of the predicate without the
    field. *)
Theorem empty_clause_vacuous (OPERATORS : gmap string operator)
    (f : string) (r : record) :
  check_field OPERATORS r f (Obj (VDict [])) = Ok true
  ∧ _check_record OPERATORS [(f, Obj (VDict []))] r = Ok true
  ∧ ∀ before after : predicate,
      _check_record OPERATORS (before ++ (f, Obj (VDict [])) :: after) r
      = _check_record OPERATORS (before ++ after) r.
Proof.
  repeat split.
  intros before after. rewrite !_check_record_app. reflexivity.
Qed.

(** ** C9: test functions *)

(** C9, as stated for every callable test function, fails: a callable object
    that is no Python function is not called.  [{"age": partial(le, 18)}]
    goes through the literal branch, and Arthur's record, whose age the test
    accepts, is a non-match. *)
Lemma callable_object_is_not_called :
  dict_get arthur "age" = Some (VInt 42)
  ∧ is_adult (VInt 42) = Ok (VBool true)
  ∧ _check_record _OPERATORS adult_by_partial arthur = Ok false.
Proof. repeat split. Qed.

(** A callable object in place of a test function: whatever it would
    compute, a record that has the field is a non-match. *)
Lemma callable_object_never_matches (OPERATORS : gmap string operator)
    (before after : predicate) (key : string) (f : value -> result value)
    (r : record) (x : value) :
  dict_get r key = Some x →
  _check_record OPERATORS before r = Ok true →
  _check_record OPERATORS (before ++ (key, Callable f) :: after) r = Ok false.
Proof.
  intros Hx%getitem_Ok Hbefore. apply _check_record_short_circuit; [done|].
  cbn [check_field]. by rewrite Hx.
Qed.

(** C9, amended. When a field's qualifier is a Python function (an instance
    of [types.FunctionType]) and the record has the field, the matcher calls
    the function on the record's value at that field: with every other field
    passing, the matcher's outcome is the truth value of what that call
    returns (or the exception it raises).  For a function returning a boolean
    the matcher returns that boolean, so the record is a non-match exactly
    when the function returns [False]. *)
Theorem test_function_decides (OPERATORS : gmap string operator)
    (before after : predicate) (key : string) (f : value -> result value)
    (r : record) (x : value) :
  dict_get r key = Some x →
  _check_record OPERATORS before r = Ok true →
  _check_record OPERATORS after r = Ok true →
  _check_record OPERATORS (before ++ (key, Function f) :: after) r
  = (let! verdict := f x in Ok (truthy verdict))
  ∧ ∀ b : bool,
      f x = Ok (VBool b) →
      _check_record OPERATORS (before ++ (key, Function f) :: after) r = Ok b.
Proof.
  intros Hx Hbefore Hafter.
  assert (Hgeneral :
    _check_record OPERATORS (before ++ (key, Function f) :: after) r
    = (let! verdict := f x in Ok (truthy verdict))).
  { rewrite _check_record_reach by done. cbn [check_field].
    apply getitem_Ok in Hx. rewrite Hx. cbn [bind].
    destruct (f x) as [verdict|e]; cbn [bind]; [|done].
    destruct (truthy verdict); [exact Hafter | reflexivity]. }
  split; [exact Hgeneral|].
  intros b Hb. rewrite Hgeneral, Hb. reflexivity.
Qed.

(** C9, amended, on the docstring's records: an adult passes the test
    function, a seven-year-old is a non-match. *)
Lemma test_function_decides_witness :
  _check_record _OPERATORS adult_earthlings arthur = Ok true
  ∧ _check_record _OPERATORS adult_earthlings
      [("id", VStr "D"); ("age", VInt 7); ("planet", VStr "earth")]
    = Ok false.
Proof.
  split.
  - apply (test_function_decides _OPERATORS [("planet", Obj (VStr "earth"))]
             [("id", Obj (VDict [("$neq", VStr "Z")]))] "age" is_adult
             arthur (VInt 42)); reflexivity.
  - apply (test_function_decides _OPERATORS [("planet", Obj (VStr "earth"))]
             [("id", Obj (VDict [("$neq", VStr "Z")]))] "age" is_adult
             [("id", VStr "D"); ("age", VInt 7); ("planet", VStr "earth")]
             (VInt 7)); reflexivity.
Defined.

(** ** C3: operators missing from the table *)

(** C3, as stated, fails: the predicate
    [{"planet": "mars", "age": {"$bogus": 1}}] holds an operator that is not
    in the table, yet on a record whose planet is earth the matcher returns
    [False] at the first field and never reaches the clause. *)
Lemma unknown_operator_silent_non_match :
  _OPERATORS !! "$bogus" = None
  ∧ _check_record _OPERATORS mars_with_bogus_age arthur = Ok false.
Proof. split; reflexivity. Qed.

(** C3, amended. An operator missing from the table raises the unknown
    operator error as soon as the matcher reaches it: whenever the fields
    listed before its clause pass and the operators listed before it in the
    clause hold, whatever the record (which need not even have the field when
    the operator comes first in its clause).  So [{"age": {"$bogus": 1}}]
    raises on every record. *)
Theorem unknown_operator_raises (OPERATORS : gmap string operator)
    (before after : predicate) (key op : string) (val : value)
    (earlier later : list (string * value)) (r : record) :
  OPERATORS !! op = None →
  _check_record OPERATORS before r = Ok true →
  check_clause OPERATORS r key earlier = Ok true →
  _check_record OPERATORS
    (before ++ (key, Obj (VDict (earlier ++ (op, val) :: later))) :: after) r
  = Raise (unknown_operator op).
Proof.
  intros Hop Hbefore Hearlier.
  rewrite _check_record_reach by done. cbn [check_field].
  rewrite check_clause_app, Hearlier.
  cbn [bind check_clause]. rewrite Hop. reflexivity.
Qed.

(** C3, amended, on Arthur's record: the planet and [$gte] pass, then
    [$bogus] is reached. *)
Lemma unknown_operator_raises_witness :
  _check_record _OPERATORS earthling_bogus_age arthur
  = Raise (ValueError "'$bogus' is not a valid operator.").
Proof.
  apply (unknown_operator_raises _OPERATORS [("planet", Obj (VStr "earth"))]
           [] "age" "$bogus" (VInt 1) [("$gte", VInt 10)] [] arthur);
    reflexivity.
Defined.

(** The spec's own example, [{"age": {"$bogus": 1}}], on every record. *)
Lemma bogus_age_raises (r : record) :
  _check_record _OPERATORS [("age", Obj (VDict [("$bogus", VInt 1)]))] r
  = Raise (ValueError "'$bogus' is not a valid operator.").
Proof. reflexivity. Qed.

(** ** The parallel evaluator *)

Section parallel_facts.
Variable OPERATORS : gmap string operator.

(** Loop invariant of [_parallel_query]: once the first records are done and
    their verdicts assigned, the rest of the vector still holds [False]. *)
Lemma parallel_loop_seq (qr : predicate) (todo done_ : list record)
    (verdicts : list bool) :
  length verdicts = length done_ →
  parallel_loop OPERATORS qr (PyList (done_ ++ todo))
    (seq (length done_) (length todo))
    (verdicts ++ replicate (length todo) false)
  = let! bs := check_each OPERATORS qr todo in Ok (verdicts ++ bs).
Proof.
  revert done_ verdicts.
  induction todo as [|r todo IH]; intros done_ verdicts Hlen.
  - reflexivity.
  - cbn [length seq parallel_loop data_getitem check_each replicate].
    rewrite list_lookup_middle by done.
    cbn [bind]. destruct (_check_record OPERATORS qr r) as [b|e]; [|done].
    cbn [bind].
    replace (<[length done_ := b]>
               (verdicts ++ false :: replicate (length todo) false))
      with ((verdicts ++ [b]) ++ replicate (length todo) false).
    2:{ rewrite <- Hlen.
        rewrite (insert_app_r_alt verdicts _ (length verdicts)) by lia.
        rewrite Nat.sub_diag. cbn. by rewrite <- app_assoc. }
    replace (done_ ++ r :: todo) with ((done_ ++ [r]) ++ todo)
      by (by rewrite <- app_assoc).
    replace (S (length done_)) with (length (done_ ++ [r]))
      by (rewrite length_app; cbn; lia).
    rewrite IH by (rewrite !length_app; cbn; lia).
    destruct (check_each OPERATORS qr todo) as [bs|e]; [|done].
    cbn. by rewrite <- app_assoc.
Qed.

Lemma _parallel_query_list (qr : predicate) (items : list record) :
  _parallel_query OPERATORS qr (PyList items) = check_each OPERATORS qr items.
Proof.
  unfold _parallel_query. cbn [data_len].
  pose proof (parallel_loop_seq qr items [] [] eq_refl) as H.
  cbn [length app seq] in H. rewrite H.
  by destruct (check_each OPERATORS qr items).
Qed.

Lemma check_each_Ok (qr : predicate) (items : list record) (v : list bool) :
  check_each OPERATORS qr items = Ok v
  ↔ Forall2 (fun r b => _check_record OPERATORS qr r = Ok b) items v.
Proof.
  revert v. induction items as [|r items IH]; intros v; cbn.
  - split; [intros [= <-]; constructor | by inversion 1].
  - rewrite bind_Ok. split.
    + intros (b & Hb & (bs & Hbs & [= <-])%bind_Ok).
      constructor; [done | by apply IH].
    + inversion 1 as [|? b ? bs Hb Hbs]; subst.
      exists b. split; [done|]. apply bind_Ok. exists bs.
      split; [by apply IH | done].
Qed.

(** All the verdicts, when the matcher raises on no record. *)
Lemma check_each_total (qr : predicate) (items : list record) :
  never_raises OPERATORS qr items →
  ∃ v, check_each OPERATORS qr items = Ok v.
Proof.
  induction items as [|r items IH]; intros Hall; cbn; [by eexists|].
  apply never_raises_cons in Hall as [[b ->] Hall].
  destruct (IH Hall) as [v ->]. by eexists.
Qed.

(** The first record on which the matcher raises aborts the evaluation. *)
Lemma check_each_raise (qr : predicate) (before after : list record)
    (r : record) (e : exn) :
  never_raises OPERATORS qr before →
  _check_record OPERATORS qr r = Raise e →
  check_each OPERATORS qr (before ++ r :: after) = Raise e.
Proof.
  induction before as [|r0 before IH]; intros Hall He; cbn.
  - by rewrite He.
  - apply never_raises_cons in Hall as [[b ->] Hall]. cbn.
    by rewrite IH.
Qed.

Lemma zip_filter_verdicts (qr : predicate) (items : list record)
    (v : list bool) :
  Forall2 (fun r b => _check_record OPERATORS qr r = Ok b) items v →
  zip_filter (PyList items) v
  = filter (fun r => is_match OPERATORS qr r = true) items.
Proof.
  unfold zip_filter.
  induction 1 as [|r b items v Hb _ IH]; [done|].
  pose proof (is_match_Ok _ _ _ _ Hb) as Hm.
  cbn [zip_with]. rewrite !filter_cons. cbn [snd].
  destruct b.
  - rewrite !decide_True by done. rewrite fmap_cons. by f_equal.
  - rewrite !decide_False by (rewrite ?Hm; done). exact IH.
Qed.

(** Parallel mode over a list: the first exception of the matcher is the
    query's. *)
Lemma query_parallel_raise (qr : predicate) (before after : list record)
    (r : record) (e : exn) (wrap : bool) (limit : option Z) :
  never_raises OPERATORS qr before →
  _check_record OPERATORS qr r = Raise e →
  query OPERATORS (__init__ (PyList (before ++ r :: after)) true) qr wrap limit
  = Raise e.
Proof.
  intros Hall He. unfold query. cbn [parallel data __init__].
  rewrite _parallel_query_list.
  by rewrite (check_each_raise qr before after r e).
Qed.
End parallel_facts.

(** C4. Parallel-mode vector alignment: over a list of records the parallel
    evaluator returns a vector [v] exactly when [v] is as long as the list
    and, at every index [i], the matcher returns on the [i]-th record and
    [v]'s [i]-th entry is its verdict. *)
Theorem parallel_vector_aligned (OPERATORS : gmap string operator)
    (qr : predicate) (R : list record) (v : list bool) :
  _parallel_query OPERATORS qr (PyList R) = Ok v
  ↔ length v = length R
    ∧ ∀ (i : nat) (r : record), R !! i = Some r →
        ∃ b, v !! i = Some b ∧ _check_record OPERATORS qr r = Ok b.
Proof.
  rewrite _parallel_query_list, check_each_Ok. split.
  - intros H. split; [symmetry; by eapply Forall2_length|].
    intros i r Hr.
    destruct (Forall2_lookup_l _ _ _ _ _ H Hr) as (b & Hb & Hcheck). eauto.
  - intros [Hlen Hall]. apply Forall2_same_length_lookup. split; [done|].
    intros i r b Hr Hb. destruct (Hall i r Hr) as (b' & Hb' & Hcheck).
    congruence.
Qed.

(** ** C6: fields missing from a record *)

(** C6, as stated, fails: the predicate [{"planet": "mars", "moons": 2}]
    references the field ["moons"], which the record lacks, yet the matcher
    returns [False] at the first field: a silent non-match and no lookup
    error. *)
Lemma missing_field_silent_non_match :
  dict_get arthur "moons" = None
  ∧ _check_record _OPERATORS mars_with_moons arthur = Ok false.
Proof. split; reflexivity. Qed.

(** C6, amended. When a predicate's field is missing from a record, the
    matcher raises the lookup error as soon as it reads the record at that
    field: that is, when the fields listed before it pass and its qualifier
    is a literal, a test function, or an operator clause whose first operator
    is in the table.  The error then aborts a parallel-mode query over any
    list in which no earlier record makes the matcher raise. *)
Theorem missing_field_raises (OPERATORS : gmap string operator)
    (before after : predicate) (key : string) (qual : qualifier)
    (r : record) :
  dict_get r key = None →
  reads_record OPERATORS qual = true →
  _check_record OPERATORS before r = Ok true →
  _check_record OPERATORS (before ++ (key, qual) :: after) r
  = Raise (KeyError (VStr key))
  ∧ ∀ (earlier later : list record) (wrap : bool) (limit : option Z),
      never_raises OPERATORS (before ++ (key, qual) :: after) earlier →
      query OPERATORS (__init__ (PyList (earlier ++ r :: later)) true)
        (before ++ (key, qual) :: after) wrap limit
      = Raise (KeyError (VStr key)).
Proof.
  intros Hkey Hreads Hbefore.
  assert (Hraise : _check_record OPERATORS (before ++ (key, qual) :: after) r
                   = Raise (KeyError (VStr key))).
  { rewrite _check_record_reach by done.
    by rewrite check_field_missing. }
  split; [exact Hraise|].
  intros earlier later wrap limit Hall.
  by apply query_parallel_raise.
Qed.

(** C6, amended, on Arthur's record, which has no ["moons"]: the planet
    passes, then the record is read at the missing field; in a parallel query
    Ford's record, a non-match, comes first and raises nothing. *)
Lemma missing_field_raises_witness :
  _check_record _OPERATORS earth_with_moons arthur
  = Raise (KeyError (VStr "moons"))
  ∧ query _OPERATORS (__init__ (PyList [ford; arthur; penny]) true)
      earth_with_moons true None
    = Raise (KeyError (VStr "moons")).
Proof.
  destruct (missing_field_raises _OPERATORS [("planet", Obj (VStr "earth"))]
              [] "moons" (Obj (VDict [("$gte", VInt 1)])) arthur
              eq_refl eq_refl eq_refl) as [Hmatcher Hquery].
  split; [exact Hmatcher|].
  apply (Hquery [ford] [penny] true None).
  intros r' ->%list_elem_of_singleton. by exists false.
Defined.

(** ** C7: the result is a subsequence of the records *)

Lemma zip_filter_sublist (items : list record) (results : list bool) :
  zip_filter (PyList items) results `sublist_of` items.
Proof.
  unfold zip_filter. revert results.
  induction items as [|r items IH]; intros [|b results];
    try apply sublist_nil_l.
  cbn [zip_with]. rewrite filter_cons.
  destruct (decide ((r, b).2 = true)); rewrite ?fmap_cons.
  - apply sublist_skip, IH.
  - apply sublist_cons, IH.
Qed.

Lemma slice_to_sublist {A : Type} (limit : option Z) (items : list A) :
  slice_to limit items `sublist_of` items.
Proof.
  unfold slice_to. destruct limit as [k|]; [|done].
  destruct (Z.leb 0 k); apply sublist_take.
Qed.

(** Whatever the loop returns is what it started from, followed by records
    picked in order from those it was given. *)
Lemma query_loop_sublist (OPERATORS : gmap string operator) (qr : predicate)
    (limit : option Z) (items filtered_data out : list record) :
  query_loop OPERATORS qr limit items filtered_data = Ok out →
  ∃ picked, out = filtered_data ++ picked ∧ picked `sublist_of` items.
Proof.
  revert filtered_data.
  induction items as [|r items IH]; intros filtered_data; cbn.
  - intros [= <-]. exists []. by rewrite app_nil_r.
  - destruct (_check_record OPERATORS qr r) as [[|]|e]; cbn; [| |done].
    + destruct (limit_reached limit _).
      * intros [= <-]. exists [r]. split; [done|].
        apply sublist_skip, sublist_nil_l.
      * intros (picked & -> & Hsub)%IH. exists (r :: picked).
        split; [by rewrite <- app_assoc | by apply sublist_skip].
    + intros (picked & -> & Hsub)%IH. exists picked.
      split; [done | by apply sublist_cons].
Qed.

Lemma result_records_rewrap (wrap : bool) (items : list record) :
  result_records (rewrap wrap items) = items.
Proof. by destruct wrap. Qed.

(** C7. Whatever [query] returns, wrapped or bare, in either mode and with
    any limit, is a subsequence of the records it was asked to filter: every
    returned record occurs among them, and the returned records keep their
    original relative order. *)
Theorem query_subsequence (OPERATORS : gmap string operator) (self : jque)
    (qr : predicate) (wrap : bool) (limit : option Z) (res : query_result) :
  query OPERATORS self qr wrap limit = Ok res →
  result_records res `sublist_of` data_records (data self).
Proof.
  unfold query. destruct (parallel self).
  - intros (results & _ & [= <-])%bind_Ok. rewrite result_records_rewrap.
    etrans; [apply slice_to_sublist|].
    destruct (data self) as [items|rows]; [|apply sublist_nil_l].
    apply zip_filter_sublist.
  - intros (it & Hit & (out & Hout & [= <-])%bind_Ok)%bind_Ok.
    rewrite result_records_rewrap.
    unfold _iter_items in Hit. destruct (_is_pandas self).
    + apply bind_Ok in Hit as (rows & Hrows & [= <-]).
      destruct (data self) as [items|rows']; [done|].
      injection Hrows as ->. cbn in Hout.
      apply query_loop_sublist in Hout as (picked & -> & Hsub). done.
    + injection Hit as <-. done.
Qed.

(** C7 on the three records: the earthlings, in parallel mode. *)
Lemma query_subsequence_witness :
  result_records (Bare [arthur; penny]) `sublist_of` people.
Proof.
  apply (query_subsequence _OPERATORS (__init__ (PyList people) true)
           earthlings false None (Bare [arthur; penny])).
  reflexivity.
Defined.

(** ** The sequential loop *)

Section sequential_facts.
Variable OPERATORS : gmap string operator.

(** Without an effective limit ([None], or [0], which is falsy) the loop
    collects every match. *)
Lemma query_loop_unlimited (qr : predicate) (limit : option Z)
    (items filtered_data : list record) :
  limit = None ∨ limit = Some 0 →
  never_raises OPERATORS qr items →
  query_loop OPERATORS qr limit items filtered_data
  = Ok (filtered_data
        ++ filter (fun r => is_match OPERATORS qr r = true) items).
Proof.
  intros Hlimit. revert filtered_data.
  induction items as [|r items IH]; intros filtered_data Hall.
  - cbn. by rewrite app_nil_r.
  - apply never_raises_cons in Hall as [[b Hb] Hall].
    pose proof (is_match_Ok _ _ _ _ Hb) as Hm.
    cbn [query_loop]. rewrite filter_cons, Hb. cbn [bind].
    assert (Hoff : ∀ n, limit_reached limit n = false)
      by (intros n; by destruct Hlimit as [-> | ->]).
    destruct b.
    + rewrite Hoff, decide_True by done.
      rewrite IH by done. by rewrite <- app_assoc.
    + rewrite decide_False by (rewrite Hm; done). by apply IH.
Qed.

(** With a positive limit [k] not yet reached, the loop collects matches
    until [filtered_data] holds [k] of them. *)
Lemma query_loop_limited (qr : predicate) (k : Z)
    (items filtered_data : list record) :
  Z.of_nat (length filtered_data) < k →
  never_raises OPERATORS qr items →
  query_loop OPERATORS qr (Some k) items filtered_data
  = Ok (filtered_data
        ++ take (Z.to_nat k - length filtered_data)
             (filter (fun r => is_match OPERATORS qr r = true) items)).
Proof.
  revert filtered_data.
  induction items as [|r items IH]; intros filtered_data Hlen Hall.
  - cbn. by rewrite take_nil, app_nil_r.
  - apply never_raises_cons in Hall as [[b Hb] Hall].
    pose proof (is_match_Ok _ _ _ _ Hb) as Hm.
    cbn [query_loop]. rewrite filter_cons, Hb. cbn [bind].
    destruct b.
    + rewrite decide_True by done.
      destruct (Z.to_nat k - length filtered_data)%nat as [|n] eqn:Hn;
        [lia|].
      cbn [take]. unfold limit_reached. rewrite length_app. cbn [length].
      destruct (Z.eqb_spec k 0) as [->|_]; [lia|]. cbn [negb andb].
      destruct (Z.leb_spec k (Z.of_nat (length filtered_data + 1))).
      * replace n with 0%nat by lia. by rewrite take_0.
      * rewrite IH; [| rewrite length_app; cbn; lia | done].
        rewrite length_app. cbn [length].
        replace (Z.to_nat k - (length filtered_data + 1))%nat with n by lia.
        by rewrite <- app_assoc.
    + rewrite decide_False by (rewrite Hm; done). by apply IH.
Qed.
End sequential_facts.

(** The loop of the sequential mode, taken on its own: run over records on
    which the matcher never raises, with a positive limit [k], it returns the
    first [k] matches in their original order, as many as [k] allows. *)
Theorem sequential_loop_first_matches (OPERATORS : gmap string operator)
    (qr : predicate) (R : list record) (k : Z) :
  0 < k →
  never_raises OPERATORS qr R →
  ∃ out,
    query_loop OPERATORS qr (Some k) R [] = Ok out
    ∧ out = take (Z.to_nat k)
              (filter (fun r => is_match OPERATORS qr r = true) R)
    ∧ length out
      = Nat.min (Z.to_nat k)
          (length (filter (fun r => is_match OPERATORS qr r = true) R)).
Proof.
  intros Hk Hall. eexists. split; [|split; [reflexivity|]].
  - rewrite query_loop_limited by (cbn; done || lia).
    cbn [app length]. by rewrite Nat.sub_0_r.
  - apply length_take.
Qed.

(** The first earthling of the three records. *)
Lemma sequential_loop_first_matches_witness :
  ∃ out,
    query_loop _OPERATORS earthlings (Some 1) people [] = Ok out
    ∧ out = take (Z.to_nat 1)
              (filter (fun r => is_match _OPERATORS earthlings r = true) people)
    ∧ length out
      = Nat.min (Z.to_nat 1)
          (length (filter (fun r => is_match _OPERATORS earthlings r = true)
                     people)).
Proof.
  apply (sequential_loop_first_matches _OPERATORS earthlings people 1).
  - lia.
  - intros r Hr. exists (is_match _OPERATORS earthlings r).
    repeat (apply elem_of_cons in Hr as [->|Hr]; [reflexivity|]).
    by apply elem_of_nil in Hr.
Defined.

(** ** The parallel front-end over a list *)

(** Parallel mode over a list on which the matcher never raises: all the
    matches, in their original order, cut by the slice [[:limit]]. *)
Theorem query_parallel_list (OPERATORS : gmap string operator)
    (qr : predicate) (R : list record) (wrap : bool) (limit : option Z) :
  never_raises OPERATORS qr R →
  query OPERATORS (__init__ (PyList R) true) qr wrap limit
  = Ok (rewrap wrap
          (slice_to limit
             (filter (fun r => is_match OPERATORS qr r = true) R))).
Proof.
  intros Hall. unfold query. cbn [parallel data __init__].
  rewrite _parallel_query_list.
  destruct (check_each_total OPERATORS qr R Hall) as [v Hv].
  rewrite Hv. cbn [bind].
  apply check_each_Ok in Hv.
  by rewrite (zip_filter_verdicts OPERATORS qr R v).
Qed.

Lemma teenage_earthlings_never_raises :
  never_raises _OPERATORS teenage_earthlings people.
Proof.
  intros r Hr. exists (is_match _OPERATORS teenage_earthlings r).
  repeat (apply elem_of_cons in Hr as [->|Hr]; [reflexivity|]).
  by apply elem_of_nil in Hr.
Qed.

(** The spec's first scenario, in parallel mode: only Penny is a teenage
    earthling. *)
Lemma query_parallel_list_witness :
  query _OPERATORS (__init__ (PyList people) true) teenage_earthlings false None
  = Ok (Bare [penny]).
Proof.
  apply (query_parallel_list _OPERATORS teenage_earthlings people false None).
  exact teenage_earthlings_never_raises.
Defined.

(** A limit of [0]: the slice of the parallel mode returns nothing, the loop
    of the sequential mode, for which [0] is no limit, returns every match. *)
Lemma limit_zero_modes_differ :
  query _OPERATORS (__init__ (PyList people) true) earthlings false (Some 0)
  = Ok (Bare [])
  ∧ query_loop _OPERATORS earthlings (Some 0) people [] = Ok [arthur; penny]
  ∧ query _OPERATORS (__init__ (DataFrame people) false) earthlings false
      (Some 0)
    = Ok (Bare [arthur; penny]).
Proof. repeat split. Qed.

(** ** C2: sequential mode over a list of records *)

(** C2 does not hold of the code.  A [jque] object built over a Python list
    has [_is_pandas] false, so [_iter_items] hands the loop the type [list]
    instead of the records, and a sequential-mode query raises [TypeError]
    before any record is examined: whatever the records, the predicate, the
    wrapping and the limit, there is no result to count or to compare. *)
Theorem sequential_list_query_raises (OPERATORS : gmap string operator)
    (R : list record) (qr : predicate) (wrap : bool) (limit : option Z) :
  _iter_items (__init__ (PyList R) false) (PyList R) = Ok ListType
  ∧ query OPERATORS (__init__ (PyList R) false) qr wrap limit
    = Raise TypeError.
Proof. split; reflexivity. Qed.

(** ** C5: the two modes side by side *)




(** Over a list the two modes never both return: on the same records,
    predicate and limit the parallel mode returns the first earthling while
    the sequential mode raises [TypeError]. *)
Lemma parallel_result_sequential_error :
  query _OPERATORS (__init__ (PyList people) true) earthlings false (Some 1)
  = Ok (Bare [arthur])
  ∧ query _OPERATORS (__init__ (PyList people) false) earthlings false (Some 1)
    = Raise TypeError.
Proof. split; reflexivity. Qed.

(** ** C8: querying a wrapped result again *)

(** C8 does not hold of the code.  [query] wraps its result in a new [jque]
    object over a Python list in sequential mode, and such an object cannot
    be queried: the second query of a chain always raises.  On the three
    records, [{"planet": "earth"}] followed by [{"age": 19}] raises
    [TypeError] where the single query with both clauses returns Penny's
    record. *)
Theorem requery_of_wrapped_result_raises :
  (∀ (OPERATORS : gmap string operator) (self : jque) (P1 P2 : predicate),
     ∃ e, query_twice OPERATORS self P1 P2 = Raise e)
  ∧ query_twice _OPERATORS (__init__ (PyList people) true) earthlings aged_19
    = Raise TypeError
  ∧ query _OPERATORS (__init__ (PyList people) true) (earthlings ++ aged_19)
      true None
    = Ok (Wrapped (__init__ (PyList [penny]) false)).
Proof.
  split; [|split; reflexivity].
  intros OPERATORS self P1 P2. unfold query_twice.
  destruct (query OPERATORS self P1 true None) as [first|e] eqn:Hfirst;
    [|by exists e].
  cbn [bind]. unfold query in Hfirst.
  destruct (parallel self).
  - apply bind_Ok in Hfirst as (results & _ & [= <-]).
    by exists TypeError.
  - apply bind_Ok in Hfirst as (it & _ & (out & _ & [= <-])%bind_Ok).
    by exists TypeError.
Qed.

(** * Further properties of the matcher *)

Section conjunction_facts.
Variable OPERATORS : gmap string operator.

Lemma _check_record_middle (before : predicate) (key : string)
    (qual : qualifier) (after : predicate) (r : record) :
  _check_record OPERATORS (before ++ (key, qual) :: after) r
  = let! pass := _check_record OPERATORS before r in
    if pass then
      let! pass' := check_field OPERATORS r key qual in
      if pass' then _check_record OPERATORS after r else Ok false
    else Ok false.
Proof. by rewrite _check_record_app. Qed.

(** Replacing a qualifier by one that behaves alike on a record leaves the
    predicate's outcome on that record unchanged. *)
Lemma _check_record_replace (before after : predicate) (key : string)
    (qual qual' : qualifier) (r : record) :
  check_field OPERATORS r key qual = check_field OPERATORS r key qual' →
  _check_record OPERATORS (before ++ (key, qual) :: after) r
  = _check_record OPERATORS (before ++ (key, qual') :: after) r.
Proof. intros H. by rewrite !_check_record_middle, H. Qed.

Lemma _check_record_true_iff (qr : predicate) (r : record) :
  _check_record OPERATORS qr r = Ok true
  ↔ Forall (fun kq => check_field OPERATORS r kq.1 kq.2 = Ok true) qr.
Proof.
  induction qr as [|[key qual] qr IH]; cbn [_check_record].
  - split; [constructor | done].
  - rewrite Forall_cons. cbn [fst snd]. rewrite <- IH.
    destruct (check_field OPERATORS r key qual) as [[|]|e]; cbn [bind];
      split; try done; try by intros [? ?].
Qed.
End conjunction_facts.

(** A record matches a predicate written in two parts exactly when it matches
    both parts: the fields of a predicate are conjoined. *)
Theorem match_is_conjunction (OPERATORS : gmap string operator)
    (P1 P2 : predicate) (r : record) :
  _check_record OPERATORS (P1 ++ P2) r = Ok true
  ↔ _check_record OPERATORS P1 r = Ok true
    ∧ _check_record OPERATORS P2 r = Ok true.
Proof. rewrite !_check_record_true_iff. apply Forall_app. Qed.

(** Which records match does not depend on the order in which a predicate
    lists its fields. *)
Theorem match_ignores_field_order (OPERATORS : gmap string operator)
    (P Q : predicate) (r : record) :
  P ≡ₚ Q →
  _check_record OPERATORS P r = Ok true
  ↔ _check_record OPERATORS Q r = Ok true.
Proof.
  intros HPQ. rewrite !_check_record_true_iff. by rewrite HPQ.
Qed.

Lemma match_ignores_field_order_witness :
  _check_record _OPERATORS teenage_earthlings penny = Ok true
  ↔ _check_record _OPERATORS
      [("age", Obj (VDict [("$lte", VInt 20); ("$gte", VInt 10)]));
       ("planet", Obj (VStr "earth"))] penny
    = Ok true.
Proof.
  apply (match_ignores_field_order _OPERATORS teenage_earthlings
           [("age", Obj (VDict [("$lte", VInt 20); ("$gte", VInt 10)]));
            ("planet", Obj (VStr "earth"))] penny).
  apply Permutation_swap.
Defined.

(** ** The remaining entries of the table *)

Lemma lookup_eq :
  _OPERATORS !! "$eq" = Some (fun x y => Ok (VBool (py_eq x y))).
Proof. reflexivity. Qed.

Lemma lookup_neq :
  _OPERATORS !! "$neq" = Some (fun x y => Ok (VBool (py_ne x y))).
Proof. reflexivity. Qed.

Lemma lookup_lt :
  _OPERATORS !! "$lt" = Some (fun x y => returns_bool (py_order Lt' x y)).
Proof. reflexivity. Qed.

Lemma lookup_gt :
  _OPERATORS !! "$gt" = Some (fun x y => returns_bool (py_order Gt' x y)).
Proof. reflexivity. Qed.

Lemma lookup_nin :
  _OPERATORS !! "$nin"
  = Some (fun x y => let! b := py_in x y in Ok (VBool (negb b))).
Proof. reflexivity. Qed.

Lemma lookup_ordering (sym : string) (o : ordering) :
  (sym, o) ∈ ordering_symbols →
  _OPERATORS !! sym = Some (fun x y => returns_bool (py_order o x y)).
Proof.
  unfold ordering_symbols. intros H.
  repeat (apply elem_of_cons in H as [[= -> ->]|H]; [reflexivity|]).
  by apply elem_of_nil in H.
Qed.

(** A field compared with a single operator of the table. *)
Lemma check_field_single (OPERATORS : gmap string operator)
    (f : value -> value -> result value) (r : record) (key sym : string)
    (y : value) :
  OPERATORS !! sym = Some f →
  check_field OPERATORS r key (Obj (VDict [(sym, y)]))
  = let! x := getitem r key in
    let! verdict := f x y in
    Ok (truthy verdict).
Proof.
  intros Hf. cbn [check_field check_clause]. rewrite Hf.
  destruct (getitem r key) as [x|e]; cbn [bind]; [|done].
  destruct (f x y) as [verdict|e]; cbn [bind]; [|done].
  by destruct (truthy verdict).
Qed.

(** A literal that is no dict is shorthand for an [$eq] clause: in any
    predicate and on any record the two spellings have the same outcome, be
    it a verdict or an exception. *)
Theorem literal_is_eq_clause (before after : predicate) (key : string)
    (v : value) (r : record) :
  kind_of v ≠ KDict →
  _check_record _OPERATORS (before ++ (key, Obj v) :: after) r
  = _check_record _OPERATORS
      (before ++ (key, Obj (VDict [("$eq", v)])) :: after) r.
Proof.
  intros Hv. apply _check_record_replace.
  rewrite (check_field_single _OPERATORS _ r key "$eq" v lookup_eq).
  assert (Hlit : check_field _OPERATORS r key (Obj v)
                 = let! x := getitem r key in Ok (negb (py_ne x v)))
    by (by destruct v).
  rewrite Hlit. destruct (getitem r key) as [x|e]; cbn [bind]; [|done].
  unfold py_ne. by rewrite negb_involutive.
Qed.

Lemma literal_is_eq_clause_witness :
  _check_record _OPERATORS
    ([("planet", Obj (VStr "earth"))] ++ ("age", Obj (VInt 19)) :: []) penny
  = _check_record _OPERATORS
      ([("planet", Obj (VStr "earth"))]
         ++ ("age", Obj (VDict [("$eq", VInt 19)])) :: []) penny.
Proof.
  apply (literal_is_eq_clause [("planet", Obj (VStr "earth"))] [] "age"
           (VInt 19) penny).
  discriminate.
Defined.

(** [$neq] and [$nin] are the negations of [$eq] and [$in]: on any record
    the negated clause returns the opposite verdict, and raises whenever the
    plain one does (so a record without the field matches neither). *)
Theorem negated_operators_complement (r : record) (key : string)
    (y : value) :
  _check_record _OPERATORS [(key, Obj (VDict [("$neq", y)]))] r
  = (let! b := _check_record _OPERATORS [(key, Obj (VDict [("$eq", y)]))] r in
     Ok (negb b))
  ∧ _check_record _OPERATORS [(key, Obj (VDict [("$nin", y)]))] r
    = (let! b := _check_record _OPERATORS [(key, Obj (VDict [("$in", y)]))] r in
       Ok (negb b)).
Proof.
  cbn [_check_record].
  rewrite (check_field_single _OPERATORS _ r key "$neq" y lookup_neq).
  rewrite (check_field_single _OPERATORS _ r key "$eq" y lookup_eq).
  rewrite (check_field_single _OPERATORS _ r key "$nin" y lookup_nin).
  rewrite (check_field_single _OPERATORS _ r key "$in" y lookup_in).
  destruct (getitem r key) as [x|e]; cbn [bind]; [|done].
  split.
  - unfold py_ne. by destruct (py_eq x y).
  - destruct (py_in x y) as [[|]|e]; by cbn.
Qed.

(** The strict bounds: [{"$gt": lo, "$lt": hi}] matches a record iff its
    value at the field is a number strictly between [lo] and [hi]. *)
Theorem strict_range_match (r : record) (key : string) (lo hi : Z) :
  _check_record _OPERATORS
    [(key, Obj (VDict [("$gt", VInt lo); ("$lt", VInt hi)]))] r = Ok true
  ↔ ∃ x a, dict_get r key = Some x ∧ as_int x = Some a ∧ lo < a < hi.
Proof.
  cbn [_check_record check_field check_clause].
  rewrite lookup_gt, lookup_lt. unfold getitem.
  destruct (dict_get r key) as [x|]; cbn [bind];
    [|split; [discriminate | intros (y & a & [=] & _)]].
  destruct (as_int x) as [a|] eqn:Ha.
  - assert (Hx : py_order Gt' x (VInt lo) = Ok (Z.ltb lo a)
                 ∧ py_order Lt' x (VInt hi) = Ok (Z.ltb a hi)).
    { destruct x; cbn in Ha; try discriminate; injection Ha as <-; by cbn. }
    destruct Hx as [-> ->]. cbn.
    destruct (Z.ltb_spec lo a), (Z.ltb_spec a hi); cbn; split;
      try discriminate; try (intros _; exists x, a; repeat split; auto; lia);
      try done;
      intros (y & b & [= <-] & Hb & Hlo & Hhi); rewrite Ha in Hb;
      injection Hb as <-; lia.
  - split.
    + destruct x; cbn in Ha; try discriminate; cbn; discriminate.
    + intros (y & b & [= <-] & Hb & _). congruence.
Qed.

(** ** Type errors of the comparisons *)

Lemma py_order_mismatch (o : ordering) (x y : value) :
  same_ordered_kind x y = false → py_order o x y = Raise TypeError.
Proof. destruct x, y; cbn; try done. Qed.

Lemma py_in_undefined (x y : value) :
  membership_defined x y = false → py_in x y = Raise TypeError.
Proof. destruct x, y; cbn; try done. Qed.

(** An ordering operator applied to a record value and a comparand that are
    not of one ordered kind (two numbers, two strings or two lists) raises
    [TypeError] as soon as the matcher reaches it, that is, once the fields
    listed before its clause pass and the operators listed before it in the
    clause hold: a null or a string where a number is compared is an error,
    not a non-match. *)
Theorem ordering_type_mismatch_raises (before after : predicate)
    (key sym : string) (o : ordering) (y : value)
    (earlier later : list (string * value)) (r : record) (x : value) :
  (sym, o) ∈ ordering_symbols →
  dict_get r key = Some x →
  same_ordered_kind x y = false →
  _check_record _OPERATORS before r = Ok true →
  check_clause _OPERATORS r key earlier = Ok true →
  _check_record _OPERATORS
    (before ++ (key, Obj (VDict (earlier ++ (sym, y) :: later))) :: after) r
  = Raise TypeError.
Proof.
  intros Hsym Hx Hkind Hbefore Hearlier.
  rewrite _check_record_reach by done. cbn [check_field].
  rewrite check_clause_app, Hearlier. cbn [bind check_clause].
  rewrite (lookup_ordering sym o Hsym).
  apply getitem_Ok in Hx. rewrite Hx. cbn [bind].
  by rewrite py_order_mismatch.
Qed.

(** Penny is an earthling of at least ten; her age is then compared with a
    string. *)
Lemma ordering_type_mismatch_raises_witness :
  _check_record _OPERATORS
    ([("planet", Obj (VStr "earth"))]
       ++ ("age", Obj (VDict ([("$gte", VInt 10)] ++ ("$lt", VStr "x") :: [])))
       :: []) penny
  = Raise TypeError.
Proof.
  apply (ordering_type_mismatch_raises [("planet", Obj (VStr "earth"))] []
           "age" "$lt" Lt' (VStr "x") [("$gte", VInt 10)] [] penny (VInt 19));
    try reflexivity.
  unfold ordering_symbols. apply elem_of_cons. by left.
Defined.

(** [$in] and [$nin] with a comparand in which membership of the record's
    value is not defined (a number or a null, a string for a value that is no
    string, a dict for an unhashable value) raise [TypeError] as soon as the
    matcher reaches them, that is, once the fields listed before their clause
    pass and the operators listed before them in the clause hold. *)
Theorem membership_type_error_raises (before after : predicate)
    (key sym : string) (y : value) (earlier later : list (string * value))
    (r : record) (x : value) :
  sym = "$in" ∨ sym = "$nin" →
  dict_get r key = Some x →
  membership_defined x y = false →
  _check_record _OPERATORS before r = Ok true →
  check_clause _OPERATORS r key earlier = Ok true →
  _check_record _OPERATORS
    (before ++ (key, Obj (VDict (earlier ++ (sym, y) :: later))) :: after) r
  = Raise TypeError.
Proof.
  intros Hsym Hx Hdef Hbefore Hearlier.
  rewrite _check_record_reach by done. cbn [check_field].
  rewrite check_clause_app, Hearlier. cbn [bind check_clause].
  apply getitem_Ok in Hx.
  destruct Hsym as [-> | ->].
  - rewrite lookup_in, Hx. cbn [bind]. by rewrite py_in_undefined.
  - rewrite lookup_nin, Hx. cbn [bind]. by rewrite py_in_undefined.
Qed.

(** Penny is an earthling of at least ten; her age is then looked for in a
    string. *)
Lemma membership_type_error_raises_witness :
  _check_record _OPERATORS
    ([("planet", Obj (VStr "earth"))]
       ++ ("age",
           Obj (VDict ([("$gte", VInt 10)] ++ ("$nin", VStr "19 or 20") :: [])))
       :: []) penny
  = Raise TypeError.
Proof.
  apply (membership_type_error_raises [("planet", Obj (VStr "earth"))] []
           "age" "$nin" (VStr "19 or 20") [("$gte", VInt 10)] [] penny
           (VInt 19)); try reflexivity.
  by right.
Defined.

(** ** Operator clauses over any table *)

(** The operators of a clause are conjoined: on a record that has the field,
    the clause passes exactly when every operator it lists is in the table
    and returns a true value on the record's value and its comparand. *)
Theorem clause_is_conjunction (OPERATORS : gmap string operator)
    (r : record) (key : string) (x : value)
    (clause : list (string * value)) :
  dict_get r key = Some x →
  check_clause OPERATORS r key clause = Ok true
  ↔ Forall (fun oc => ∃ f verdict,
              OPERATORS !! oc.1 = Some f
              ∧ f x oc.2 = Ok verdict
              ∧ truthy verdict = true) clause.
Proof.
  intros Hx%getitem_Ok.
  induction clause as [|[op val] clause IH]; cbn [check_clause].
  - split; [constructor | done].
  - rewrite Forall_cons. cbn [fst snd]. rewrite <- IH. rewrite Hx. cbn [bind].
    destruct (OPERATORS !! op) as [f|] eqn:Hop.
    + destruct (f x val) as [verdict|e] eqn:Hf; cbn [bind].
      * destruct (truthy verdict) eqn:Ht; cbn [negb]; split.
        -- intros H. split; [|done]. by exists f, verdict.
        -- by intros [_ H].
        -- discriminate.
        -- intros [(f' & v' & [= <-] & Hf' & Ht') _]. congruence.
      * split; [discriminate|].
        intros [(f' & v' & [= <-] & Hf' & _) _]. congruence.
    + split; [discriminate|]. intros [(f' & v' & [=] & _) _].
Qed.

Lemma clause_is_conjunction_witness :
  check_clause _OPERATORS penny "age" [("$lte", VInt 20); ("$gte", VInt 10)]
  = Ok true
  ↔ Forall (fun oc => ∃ f verdict,
              _OPERATORS !! oc.1 = Some f
              ∧ f (VInt 19) oc.2 = Ok verdict
              ∧ truthy verdict = true)
      [("$lte", VInt 20); ("$gte", VInt 10)].
Proof.
  apply (clause_is_conjunction _OPERATORS penny "age" (VInt 19)
           [("$lte", VInt 20); ("$gte", VInt 10)]).
  reflexivity.
Defined.

(** ** Extending the table *)

Section registration_facts.
Variable OPERATORS : gmap string operator.
Variable sym : string.
Variable f : value -> value -> result value.

Lemma check_clause_insert (r : record) (key : string)
    (clause : list (string * value)) :
  sym ∉ clause.*1 →
  check_clause (<[sym := f]> OPERATORS) r key clause
  = check_clause OPERATORS r key clause.
Proof.
  induction clause as [|[op val] clause IH]; [done|].
  rewrite fmap_cons, not_elem_of_cons. cbn [fst]. intros [Hne Hrest].
  cbn [check_clause]. rewrite lookup_insert_ne by done.
  destruct (OPERATORS !! op) as [g|]; [|done].
  destruct (getitem r key) as [x|e]; cbn [bind]; [|done].
  destruct (g x val) as [verdict|e]; cbn [bind]; [|done].
  destruct (truthy verdict); cbn [negb]; [by apply IH | done].
Qed.

Lemma check_field_insert (r : record) (key : string) (qual : qualifier) :
  sym ∉ qualifier_operators qual →
  check_field (<[sym := f]> OPERATORS) r key qual
  = check_field OPERATORS r key qual.
Proof.
  destruct qual as [v|g|g]; [|done|done].
  destruct v; try done. cbn [qualifier_operators check_field].
  apply check_clause_insert.
Qed.
End registration_facts.

(** Registering an operator in the table changes nothing for the predicates
    that do not use its symbol: on every record they have the outcome they
    had before. *)
Theorem registration_preserves_other_predicates
    (OPERATORS : gmap string operator) (sym : string)
    (f : value -> value -> result value) (qr : predicate) (r : record) :
  sym ∉ predicate_operators qr →
  _check_record (<[sym := f]> OPERATORS) qr r = _check_record OPERATORS qr r.
Proof.
  unfold predicate_operators.
  induction qr as [|[key qual] qr IH]; [done|].
  cbn [map concat snd]. rewrite not_elem_of_app. intros [Hqual Hrest].
  cbn [_check_record]. rewrite check_field_insert by done.
  destruct (check_field OPERATORS r key qual) as [[|]|e]; cbn [bind];
    [by apply IH | done | done].
Qed.

Lemma registration_preserves_other_predicates_witness :
  _check_record (<["$divides" := divides]> _OPERATORS) teenage_earthlings penny
  = _check_record _OPERATORS teenage_earthlings penny.
Proof.
  apply (registration_preserves_other_predicates _OPERATORS "$divides"
           divides teenage_earthlings penny).
  cbn. rewrite !not_elem_of_cons. repeat split; try discriminate.
  apply not_elem_of_nil.
Defined.

(** A registered operator is what the matcher calls for its symbol, in place
    of any earlier entry: with the field present and the other fields passing,
    the outcome is the truth value of what it returns on the record's value
    and the comparand, or the exception it raises. *)
Theorem registered_operator_decides (OPERATORS : gmap string operator)
    (sym : string) (f : value -> value -> result value)
    (before after : predicate) (key : string) (val : value) (r : record)
    (x : value) :
  dict_get r key = Some x →
  _check_record (<[sym := f]> OPERATORS) before r = Ok true →
  _check_record (<[sym := f]> OPERATORS) after r = Ok true →
  _check_record (<[sym := f]> OPERATORS)
    (before ++ (key, Obj (VDict [(sym, val)])) :: after) r
  = (let! verdict := f x val in Ok (truthy verdict)).
Proof.
  intros Hx%getitem_Ok Hbefore Hafter.
  rewrite _check_record_reach by done.
  rewrite (check_field_single _ f r key sym val)
    by apply lookup_insert_eq.
  rewrite Hx. cbn [bind].
  destruct (f x val) as [verdict|e]; cbn [bind]; [|done].
  by destruct (truthy verdict).
Qed.

Lemma registered_operator_decides_witness :
  _check_record (<["$divides" := divides]> _OPERATORS)
    ([("planet", Obj (VStr "earth"))]
       ++ ("age", Obj (VDict [("$divides", VInt 38)])) :: []) penny
  = Ok true.
Proof.
  apply (registered_operator_decides _OPERATORS "$divides" divides
           [("planet", Obj (VStr "earth"))] [] "age" (VInt 38) penny
           (VInt 19)); reflexivity.
Defined.

(** * Further properties of the queries *)

Section query_facts.
Variable OPERATORS : gmap string operator.

Lemma is_match_true (qr : predicate) (r : record) :
  is_match OPERATORS qr r = true ↔ _check_record OPERATORS qr r = Ok true.
Proof.
  unfold is_match.
  destruct (_check_record OPERATORS qr r) as [[|]|e]; split; done.
Qed.

Lemma filter_matches_Forall (qr : predicate) (items : list record) :
  Forall (fun r => _check_record OPERATORS qr r = Ok true)
    (filter (fun r => is_match OPERATORS qr r = true) items).
Proof.
  apply Forall_forall. intros r [Hr _]%list_elem_of_filter.
  by apply is_match_true.
Qed.

Lemma Forall_sublist_of {A : Type} (P : A → Prop) (l1 l2 : list A) :
  l1 `sublist_of` l2 → Forall P l2 → Forall P l1.
Proof.
  rewrite !Forall_forall. intros Hsub H x Hx.
  apply H. by eapply elem_of_sublist.
Qed.

(** What [_parallel_query] returns over a list, if it returns: the matcher
    raised on no record, and the comprehension keeps the matches. *)
Lemma _parallel_query_Ok (qr : predicate) (R : list record) (v : list bool) :
  _parallel_query OPERATORS qr (PyList R) = Ok v →
  never_raises OPERATORS qr R
  ∧ zip_filter (PyList R) v
    = filter (fun r => is_match OPERATORS qr r = true) R.
Proof.
  rewrite _parallel_query_list, check_each_Ok. intros H. split.
  - intros r (i & Hi)%list_elem_of_lookup.
    destruct (Forall2_lookup_l _ _ _ _ _ H Hi) as (b & _ & Hb). eauto.
  - by apply zip_filter_verdicts.
Qed.

Lemma _parallel_query_never_raises (qr : predicate) (R : list record) :
  never_raises OPERATORS qr R →
  ∃ v, _parallel_query OPERATORS qr (PyList R) = Ok v
       ∧ zip_filter (PyList R) v
         = filter (fun r => is_match OPERATORS qr r = true) R.
Proof.
  intros Hall. rewrite _parallel_query_list.
  destruct (check_each_total OPERATORS qr R Hall) as [v Hv].
  exists v. split; [done|].
  apply zip_filter_verdicts. by apply check_each_Ok.
Qed.

(** What the sequential loop returns, if it returns. *)
Lemma query_loop_inv (qr : predicate) (limit : option Z)
    (items filtered_data out : list record) :
  query_loop OPERATORS qr limit items filtered_data = Ok out →
  ∃ picked,
    out = filtered_data ++ picked
    ∧ picked `sublist_of` items
    ∧ Forall (fun r => _check_record OPERATORS qr r = Ok true) picked
    ∧ ∀ k, limit = Some k → 0 < k →
        Z.of_nat (length filtered_data) < k → Z.of_nat (length out) <= k.
Proof.
  revert filtered_data.
  induction items as [|r items IH]; intros filtered_data; cbn [query_loop].
  - intros [= <-]. exists []. rewrite app_nil_r.
    repeat split; [done | constructor | lia].
  - destruct (_check_record OPERATORS qr r) as [[|]|e] eqn:Hr; cbn [bind];
      [| |done].
    + destruct (limit_reached limit _) eqn:Hreached.
      * intros [= <-]. exists [r]. repeat split.
        -- apply sublist_skip, sublist_nil_l.
        -- by repeat constructor.
        -- intros k -> Hk Hlen. rewrite length_app. cbn. lia.
      * intros (picked & -> & Hsub & Hall & Hbound)%IH. exists (r :: picked).
        repeat split.
        -- by rewrite <- app_assoc.
        -- by apply sublist_skip.
        -- by constructor.
        -- intros k -> Hk Hlen. apply Hbound; [done | done |].
           unfold limit_reached in Hreached. rewrite length_app in *.
           cbn [length] in *.
           destruct (Z.eqb_spec k 0); [lia|]. cbn [negb andb] in Hreached.
           apply Z.leb_gt in Hreached. lia.
    + intros (picked & -> & Hsub & Hall & Hbound)%IH. exists picked.
      repeat split; [by apply sublist_cons | done | done].
Qed.

(** What [query] returns, if it returns. *)
Lemma query_Ok_inv (self : jque) (qr : predicate) (wrap : bool)
    (limit : option Z) (res : query_result) :
  query OPERATORS self qr wrap limit = Ok res →
  ∃ out,
    res = rewrap wrap out
    ∧ out `sublist_of` data_records (data self)
    ∧ Forall (fun r => _check_record OPERATORS qr r = Ok true) out
    ∧ ∀ k, limit = Some k → 0 < k → Z.of_nat (length out) <= k.
Proof.
  unfold query. destruct (parallel self).
  - intros (results & Hresults & [= <-])%bind_Ok. eexists. split; [done|].
    destruct (data self) as [items|rows].
    + apply _parallel_query_Ok in Hresults as [_ ->]. repeat split.
      * etrans; [apply slice_to_sublist | apply sublist_filter].
      * eapply Forall_sublist_of;
          [apply slice_to_sublist | apply filter_matches_Forall].
      * intros k -> Hk. unfold slice_to.
        destruct (Z.leb_spec 0 k); [|lia]. rewrite length_take. lia.
    + cbn [zip_filter]. assert (Hnil : slice_to limit (@nil record) = [])
        by (unfold slice_to; destruct limit as [k|]; [|done];
            destruct (Z.leb 0 k); by rewrite take_nil).
      rewrite Hnil. repeat split;
        [apply sublist_nil_l | constructor | cbn; lia].
  - intros (it & Hit & (out & Hout & [= <-])%bind_Ok)%bind_Ok.
    exists out. split; [done|].
    unfold _iter_items in Hit. destruct (_is_pandas self).
    + apply bind_Ok in Hit as (rows & Hrows & [= <-]).
      destruct (data self) as [items|rows']; [done|].
      injection Hrows as ->. cbn in Hout.
      apply query_loop_inv in Hout as (picked & -> & Hsub & Hall & Hbound).
      repeat split; [done | done |].
      intros k Hk Hpos. apply Hbound; [done | done | cbn; lia].
    + injection Hit as <-. done.
Qed.
End query_facts.

(** Every record a query returns satisfies the predicate: on each of them
    the matcher returns [True], in either mode, wrapped or bare, with any
    limit. *)
Theorem query_results_match (OPERATORS : gmap string operator) (self : jque)
    (qr : predicate) (wrap : bool) (limit : option Z) (res : query_result) :
  query OPERATORS self qr wrap limit = Ok res →
  ∀ r, r ∈ result_records res → _check_record OPERATORS qr r = Ok true.
Proof.
  intros (out & -> & _ & Hall & _)%query_Ok_inv r.
  rewrite result_records_rewrap. revert r. by apply Forall_forall.
Qed.

Lemma query_results_match_witness :
  _check_record _OPERATORS earthlings penny = Ok true.
Proof.
  apply (query_results_match _OPERATORS (__init__ (PyList people) true)
           earthlings false None (Bare [arthur; penny])).
  - reflexivity.
  - cbn. apply elem_of_cons. right. apply elem_of_cons. by left.
Defined.

(** A positive limit is never exceeded: a query that returns with limit [k]
    returns at most [k] records, in either mode. *)
Theorem positive_limit_never_exceeded (OPERATORS : gmap string operator)
    (self : jque) (qr : predicate) (wrap : bool) (k : Z)
    (res : query_result) :
  0 < k →
  query OPERATORS self qr wrap (Some k) = Ok res →
  Z.of_nat (length (result_records res)) <= k.
Proof.
  intros Hk (out & -> & _ & _ & Hbound)%query_Ok_inv.
  rewrite result_records_rewrap. by apply Hbound.
Qed.

Lemma positive_limit_never_exceeded_witness :
  Z.of_nat (length (result_records (Bare [arthur]))) <= 1.
Proof.
  apply (positive_limit_never_exceeded _OPERATORS
           (__init__ (PyList people) true) earthlings false 1 (Bare [arthur])).
  - lia.
  - reflexivity.
Defined.

(** Parallel mode evaluates every record before it truncates: a query over a
    list returns only if the matcher raises on no record of the list, those
    past the limit included. *)
Theorem parallel_query_evaluates_every_record
    (OPERATORS : gmap string operator) (qr : predicate) (R : list record)
    (wrap : bool) (limit : option Z) (res : query_result) :
  query OPERATORS (__init__ (PyList R) true) qr wrap limit = Ok res →
  never_raises OPERATORS qr R.
Proof.
  unfold query. cbn [parallel data __init__].
  intros (results & Hresults & _)%bind_Ok.
  by apply _parallel_query_Ok in Hresults as [Hall _].
Qed.

Lemma parallel_query_evaluates_every_record_witness :
  never_raises _OPERATORS earthlings people.
Proof.
  apply (parallel_query_evaluates_every_record _OPERATORS earthlings people
           false (Some 1) (Bare [arthur])).
  reflexivity.
Defined.

(** ** Limits in the sequential loop *)

Section limit_facts.
Variable OPERATORS : gmap string operator.

(** Once the records seen so far hold enough matches for a positive limit,
    the loop returns without looking at what follows. *)
Lemma query_loop_prefix (qr : predicate) (k : Z)
    (seen rest filtered_data : list record) :
  Z.of_nat (length filtered_data) < k →
  never_raises OPERATORS qr seen →
  k <= Z.of_nat (length filtered_data
                 + length (filter (fun r => is_match OPERATORS qr r = true)
                             seen)) →
  query_loop OPERATORS qr (Some k) (seen ++ rest) filtered_data
  = Ok (filtered_data
        ++ take (Z.to_nat k - length filtered_data)
             (filter (fun r => is_match OPERATORS qr r = true) seen)).
Proof.
  revert filtered_data.
  induction seen as [|r seen IH]; intros filtered_data Hlen Hall Henough.
  - cbn in Henough. lia.
  - apply never_raises_cons in Hall as [[b Hb] Hall].
    pose proof (is_match_Ok _ _ _ _ Hb) as Hm.
    cbn [app query_loop]. rewrite filter_cons, Hb in *. cbn [bind].
    destruct b.
    + rewrite decide_True in * by done. cbn [length] in Henough.
      destruct (Z.to_nat k - length filtered_data)%nat as [|n] eqn:Hn;
        [lia|].
      cbn [take]. unfold limit_reached. rewrite length_app. cbn [length].
      destruct (Z.eqb_spec k 0) as [->|_]; [lia|]. cbn [negb andb].
      destruct (Z.leb_spec k (Z.of_nat (length filtered_data + 1))).
      * replace n with 0%nat by lia. by rewrite take_0.
      * rewrite IH; [| rewrite length_app; cbn; lia | done
                     | rewrite length_app; cbn [length]; lia].
        rewrite length_app. cbn [length].
        replace (Z.to_nat k - (length filtered_data + 1))%nat with n by lia.
        by rewrite <- app_assoc.
    + rewrite decide_False in * by (rewrite Hm; done). by apply IH.
Qed.

(** With a negative limit the test [len(filtered_data) >= limit] holds at the
    first match, where the loop stops. *)
Lemma query_loop_negative (qr : predicate) (k : Z)
    (items filtered_data : list record) :
  k < 0 →
  never_raises OPERATORS qr items →
  query_loop OPERATORS qr (Some k) items filtered_data
  = Ok (filtered_data
        ++ take 1 (filter (fun r => is_match OPERATORS qr r = true) items)).
Proof.
  intros Hk. revert filtered_data.
  induction items as [|r items IH]; intros filtered_data Hall.
  - cbn. by rewrite app_nil_r.
  - apply never_raises_cons in Hall as [[b Hb] Hall].
    pose proof (is_match_Ok _ _ _ _ Hb) as Hm.
    cbn [query_loop]. rewrite filter_cons, Hb. cbn [bind].
    destruct b.
    + rewrite decide_True by done. cbn [take]. rewrite take_0.
      unfold limit_reached.
      destruct (Z.eqb_spec k 0) as [->|_]; [lia|]. cbn [negb andb].
      destruct (Z.leb_spec k (Z.of_nat (length (filtered_data ++ [r]))));
        [done | lia].
    + rewrite decide_False by (rewrite Hm; done). by apply IH.
Qed.
End limit_facts.

(** The sequential loop is lazy: once the records seen hold [k] matches for a
    positive limit [k], it returns the first [k] of them whatever follows in
    the collection, records on which the matcher would raise included. *)
Theorem sequential_loop_stops_at_limit (OPERATORS : gmap string operator)
    (qr : predicate) (k : Z) (seen rest : list record) :
  0 < k →
  never_raises OPERATORS qr seen →
  k <= Z.of_nat (length (filter (fun r => is_match OPERATORS qr r = true)
                           seen)) →
  query_loop OPERATORS qr (Some k) (seen ++ rest) []
  = Ok (take (Z.to_nat k)
          (filter (fun r => is_match OPERATORS qr r = true) seen)).
Proof.
  intros Hk Hall Henough.
  rewrite query_loop_prefix by (cbn; done || lia).
  cbn [app length]. by rewrite Nat.sub_0_r.
Qed.

(** Arthur matches; the record that follows has no planet. *)
Lemma sequential_loop_stops_at_limit_witness :
  query_loop _OPERATORS earthlings (Some 1)
    ([arthur] ++ [[("id", VStr "D")]]) []
  = Ok [arthur]
  ∧ _check_record _OPERATORS earthlings [("id", VStr "D")]
    = Raise (KeyError (VStr "planet")).
Proof.
  split; [|reflexivity].
  apply (sequential_loop_stops_at_limit _OPERATORS earthlings 1 [arthur]
           [[("id", VStr "D")]]).
  - lia.
  - intros r ->%list_elem_of_singleton. by exists true.
  - vm_compute. discriminate.
Defined.

(** With a negative limit the sequential loop returns the first match alone
    (nothing when there is none), where the slice of the parallel mode drops
    matches from the end. *)
Theorem sequential_loop_negative_limit (OPERATORS : gmap string operator)
    (qr : predicate) (k : Z) (R : list record) :
  k < 0 →
  never_raises OPERATORS qr R →
  query_loop OPERATORS qr (Some k) R []
  = Ok (take 1 (filter (fun r => is_match OPERATORS qr r = true) R)).
Proof.
  intros Hk Hall. by rewrite query_loop_negative.
Qed.

Lemma earthlings_never_raises : never_raises _OPERATORS earthlings people.
Proof.
  intros r Hr. exists (is_match _OPERATORS earthlings r).
  repeat (apply elem_of_cons in Hr as [->|Hr]; [reflexivity|]).
  by apply elem_of_nil in Hr.
Qed.

Lemma sequential_loop_negative_limit_witness :
  query_loop _OPERATORS earthlings (Some (-1)) people [] = Ok [arthur].
Proof.
  apply (sequential_loop_negative_limit _OPERATORS earthlings (-1) people).
  - lia.
  - exact earthlings_never_raises.
Defined.

(** A limit of [0]: over records on which the matcher never raises, the
    parallel mode returns nothing, while the sequential loop, whose test
    [limit and ...] takes [0] for no limit, returns every match. *)
Theorem limit_zero_by_mode (OPERATORS : gmap string operator)
    (qr : predicate) (R : list record) (wrap : bool) :
  never_raises OPERATORS qr R →
  query OPERATORS (__init__ (PyList R) true) qr wrap (Some 0)
  = Ok (rewrap wrap [])
  ∧ query_loop OPERATORS qr (Some 0) R []
    = Ok (filter (fun r => is_match OPERATORS qr r = true) R).
Proof.
  intros Hall. split.
  - unfold query. cbn [parallel data __init__].
    destruct (_parallel_query_never_raises OPERATORS qr R Hall)
      as (v & Hv & Hzip).
    rewrite Hv. cbn [bind]. rewrite Hzip.
    cbn [slice_to]. by rewrite take_0.
  - by rewrite query_loop_unlimited by auto.
Qed.

Lemma limit_zero_by_mode_witness :
  query _OPERATORS (__init__ (PyList people) true) earthlings false (Some 0)
  = Ok (Bare [])
  ∧ query_loop _OPERATORS earthlings (Some 0) people [] = Ok [arthur; penny].
Proof.
  apply (limit_zero_by_mode _OPERATORS earthlings people false).
  exact earthlings_never_raises.
Defined.

(** The filter-and-limit pass of the parallel mode mirrors the sequential
    loop: for no limit and for a positive one, over a list on which the
    matcher raises on no record, the loop run over the records returns a
    sequence, and the parallel-mode query returns that same sequence. *)
Theorem parallel_pass_mirrors_loop (OPERATORS : gmap string operator)
    (qr : predicate) (R : list record) (wrap : bool) (limit : option Z) :
  limit = None ∨ (∃ k, limit = Some k ∧ 0 < k) →
  never_raises OPERATORS qr R →
  ∃ out,
    query_loop OPERATORS qr limit R [] = Ok out
    ∧ query OPERATORS (__init__ (PyList R) true) qr wrap limit
      = Ok (rewrap wrap out).
Proof.
  intros Hlimit Hall.
  exists (slice_to limit (filter (fun r => is_match OPERATORS qr r = true) R)).
  split.
  - destruct Hlimit as [-> | (k & -> & Hk)].
    + by rewrite query_loop_unlimited by auto.
    + rewrite query_loop_limited by (cbn; done || lia).
      unfold slice_to. destruct (Z.leb_spec 0 k); [|lia].
      cbn [app length]. by rewrite Nat.sub_0_r.
  - unfold query. cbn [parallel data __init__].
    destruct (_parallel_query_never_raises OPERATORS qr R Hall)
      as (v & Hv & Hzip).
    rewrite Hv. cbn [bind]. by rewrite Hzip.
Qed.

(** The teenage earthlings with a limit of two: Penny, from the loop and from
    the parallel query. *)
Lemma parallel_pass_mirrors_loop_witness :
  ∃ out,
    query_loop _OPERATORS teenage_earthlings (Some 2) people [] = Ok out
    ∧ query _OPERATORS (__init__ (PyList people) true) teenage_earthlings
        false (Some 2)
      = Ok (rewrap false out).
Proof.
  apply (parallel_pass_mirrors_loop _OPERATORS teenage_earthlings people
           false (Some 2)).
  - right. exists 2. split; [reflexivity | lia].
  - exact teenage_earthlings_never_raises.
Defined.

(** ** Wrapping, chaining and indexing *)

(** [wrap] only chooses the container: a query has the outcome of the bare
    query (the same records or the same exception), and what it wraps them
    in is always a sequential-mode object over a plain list, also when the
    object queried was parallel. *)
Theorem wrap_only_changes_container (OPERATORS : gmap string operator)
    (self : jque) (qr : predicate) (wrap : bool) (limit : option Z) :
  query OPERATORS self qr wrap limit
  = (let! res := query OPERATORS self qr false limit in
     Ok (if wrap
         then Wrapped {| parallel := false; _is_pandas := false;
                         data := PyList (result_records res) |}
         else res)).
Proof.
  unfold query. destruct (parallel self).
  - destruct (_parallel_query OPERATORS qr (data self)) as [results|e];
      cbn [bind]; [|done].
    by destruct wrap.
  - destruct (_iter_items self (data self)) as [it|e]; cbn [bind]; [|done].
    destruct (for_each_record OPERATORS qr limit it) as [out|e];
      cbn [bind]; [|done].
    by destruct wrap.
Qed.

(** The empty predicate selects everything: in parallel mode over a list the
    query returns the list itself, cut by the slice [[:limit]]. *)
Theorem empty_predicate_returns_everything (OPERATORS : gmap string operator)
    (R : list record) (wrap : bool) (limit : option Z) :
  query OPERATORS (__init__ (PyList R) true) [] wrap limit
  = Ok (rewrap wrap (slice_to limit R)).
Proof.
  assert (Hall : never_raises OPERATORS [] R) by (intros r _; by exists true).
  unfold query. cbn [parallel data __init__].
  destruct (_parallel_query_never_raises OPERATORS [] R Hall)
    as (v & Hv & Hzip).
  rewrite Hv. cbn [bind]. rewrite Hzip. do 3 f_equal.
  clear. induction R as [|r R IH]; [done|].
  rewrite filter_cons_True by done. by f_equal.
Qed.

Section chaining_facts.
Variable OPERATORS : gmap string operator.

Lemma kept_records_cons (qr : predicate) (r : record) (R : list record) :
  kept_records OPERATORS qr (r :: R)
  = let! b := _check_record OPERATORS qr r in
    let! rest := kept_records OPERATORS qr R in
    Ok (if b then r :: rest else rest).
Proof.
  unfold kept_records. cbn [check_each].
  destruct (_check_record OPERATORS qr r) as [b|e]; cbn [bind]; [|done].
  destruct (check_each OPERATORS qr R) as [v|e]; cbn [bind]; [|done].
  unfold zip_filter. cbn [zip_with]. rewrite filter_cons. cbn [snd].
  destruct b.
  - by rewrite decide_True.
  - by rewrite decide_False.
Qed.

Lemma query_parallel_kept (qr : predicate) (R : list record) (wrap : bool) :
  query OPERATORS (__init__ (PyList R) true) qr wrap None
  = let! out := kept_records OPERATORS qr R in Ok (rewrap wrap out).
Proof.
  unfold query, kept_records. cbn [parallel data __init__ slice_to].
  rewrite _parallel_query_list.
  by destruct (check_each OPERATORS qr R).
Qed.

(** Filtering by [P1], then keeping by [P2], is keeping by both at once. *)
Lemma kept_records_chain (P1 P2 : predicate) (R : list record) :
  never_raises OPERATORS P1 R →
  kept_records OPERATORS (P1 ++ P2) R
  = kept_records OPERATORS P2
      (filter (fun r => is_match OPERATORS P1 r = true) R).
Proof.
  induction R as [|r R IH]; intros Hall; [done|].
  apply never_raises_cons in Hall as [[b Hb] Hall].
  pose proof (is_match_Ok _ _ _ _ Hb) as Hm.
  rewrite kept_records_cons, _check_record_app, Hb, filter_cons. cbn [bind].
  destruct b.
  - rewrite decide_True by done. rewrite kept_records_cons.
    by rewrite IH.
  - rewrite decide_False by (rewrite Hm; done). cbn [bind].
    rewrite IH by done.
    by destruct (kept_records OPERATORS P2 _).
Qed.
End chaining_facts.

(** Two parallel queries in a row are one query with both predicates: when
    the records the first query returns are put in a new parallel-mode
    object and queried again, the outcome (the records, or the exception of
    the second predicate) is that of a single query over the original list
    with the fields of the first predicate followed by those of the second
    (no limit). *)
Theorem chained_parallel_queries_conjoin (OPERATORS : gmap string operator)
    (R R1 : list record) (P1 P2 : predicate) (wrap : bool) :
  query OPERATORS (__init__ (PyList R) true) P1 false None = Ok (Bare R1) →
  query OPERATORS (__init__ (PyList R1) true) P2 wrap None
  = query OPERATORS (__init__ (PyList R) true) (P1 ++ P2) wrap None.
Proof.
  intros Hfirst. rewrite !query_parallel_kept.
  assert (Hall : never_raises OPERATORS P1 R).
  { unfold query in Hfirst. cbn [parallel data __init__] in Hfirst.
    apply bind_Ok in Hfirst as (v & Hv & _).
    by apply _parallel_query_Ok in Hv as [Hall _]. }
  assert (HR1 : R1 = filter (fun r => is_match OPERATORS P1 r = true) R).
  { unfold query in Hfirst. cbn [parallel data __init__] in Hfirst.
    apply bind_Ok in Hfirst as (v & Hv & Heq).
    apply _parallel_query_Ok in Hv as [_ Hzip].
    injection Heq as <-. exact Hzip. }
  by rewrite kept_records_chain, HR1.
Qed.

Lemma chained_parallel_queries_conjoin_witness :
  query _OPERATORS (__init__ (PyList [arthur; penny]) true) aged_19 true None
  = query _OPERATORS (__init__ (PyList people) true) (earthlings ++ aged_19)
      true None.
Proof.
  apply (chained_parallel_queries_conjoin _OPERATORS people [arthur; penny]
           earthlings aged_19 true).
  reflexivity.
Defined.

(** ** Length and indexing *)

(** Indexing a [jque] object over a list: a key from [-len] to [len - 1]
    returns a record, a negative key counting from the end, and any other
    key raises [IndexError]. *)
Theorem getitem_bounds (R : list record) (par : bool) (key : Z) :
  (-(Z.of_nat (length R)) <= key < Z.of_nat (length R) →
     ∃ r, __getitem__ (__init__ (PyList R) par) key = Ok r
          ∧ R !! Z.to_nat (key mod Z.of_nat (length R)) = Some r)
  ∧ (¬ (-(Z.of_nat (length R)) <= key < Z.of_nat (length R)) →
     __getitem__ (__init__ (PyList R) par) key = Raise IndexError).
Proof.
  unfold __getitem__. cbn [data __init__ data_getitem].
  set (n := Z.of_nat (length R)).
  split.
  - intros Hkey.
    assert (Hi : (if Z.ltb key 0 then key + n else key) = key mod n).
    { destruct (Z.ltb_spec key 0).
      - apply (Z.mod_unique _ _ (-1)); lia.
      - symmetry. apply Z.mod_small. lia. }
    rewrite Hi.
    assert (Hrange : 0 <= key mod n < n) by (apply Z.mod_pos_bound; lia).
    destruct (Z.leb_spec 0 (key mod n)); [|lia].
    destruct (Z.ltb_spec (key mod n) n); [|lia]. cbn [andb].
    destruct (R !! Z.to_nat (key mod n)) as [r|] eqn:Hr; [by exists r|].
    apply lookup_ge_None in Hr. lia.
  - intros Hkey.
    destruct (Z.ltb_spec key 0).
    + destruct (Z.leb_spec 0 (key + n)); [lia|]. done.
    + destruct (Z.leb_spec 0 key); [|lia].
      destruct (Z.ltb_spec key n); [lia|]. done.
Qed.

(** A wrapped result is never longer than the collection queried, and every
    record indexed out of it belongs to that collection and satisfies the
    predicate. *)
Theorem indexing_a_query_result (OPERATORS : gmap string operator)
    (self j : jque) (qr : predicate) (limit : option Z) (key : Z)
    (r : record) :
  query OPERATORS self qr true limit = Ok (Wrapped j) →
  __getitem__ j key = Ok r →
  (__len__ j ≤ __len__ self)%nat
  ∧ r ∈ data_records (data self)
  ∧ _check_record OPERATORS qr r = Ok true.
Proof.
  intros (out & [= ->] & Hsub & Hall & _)%query_Ok_inv Hget.
  unfold __len__, __getitem__ in *. cbn [data __init__ data_len] in *.
  assert (Hr : r ∈ out).
  { destruct (_ && _); [|done]. cbn [data_getitem] in Hget.
    destruct (out !! _) as [r'|] eqn:Hr'; [|done].
    injection Hget as <-. by eapply list_elem_of_lookup_2. }
  repeat split.
  - apply sublist_length in Hsub.
    by destruct (data self).
  - by eapply elem_of_sublist.
  - clear Hget. revert r Hr. by apply Forall_forall.
Qed.

Lemma indexing_a_query_result_witness :
  (__len__ (__init__ (PyList [arthur; penny]) false)
   ≤ __len__ (__init__ (PyList people) true))%nat
  ∧ penny ∈ data_records (data (__init__ (PyList people) true))
  ∧ _check_record _OPERATORS earthlings penny = Ok true.
Proof.
  apply (indexing_a_query_result _OPERATORS (__init__ (PyList people) true)
           (__init__ (PyList [arthur; penny]) false) earthlings None (-1)
           penny); reflexivity.
Defined.
